(** * GeographicLib: Georef codec and Gnomonic projection

    A shallow embedding of [src/src/Georef.cpp] (with the constants of
    [src/include/GeographicLib/Georef.hpp]) and of [src/src/Gnomonic.cpp],
    followed by the properties established about them.

    Conventions of the embedding.
    - [Math::real] is the type [real] below: a finite value is an exact
      rational, NaN is a value of its own.  Rounding, overflow and the
      infinities of the machine format are outside the model; a quotient by
      zero is NaN.
    - C++ [int] and [unsigned long long] values are integers of [Z]; the
      conversions from [real] write the wrap-around out.
    - [/] and [%] on [int] are [Z.quot] and [Z.rem] (truncation toward
      zero), on [unsigned long long] they are [Z.div] and [Z.modulo].
    - A function that writes through reference parameters takes the previous
      contents of those parameters and gives back their contents afterwards,
      together with the way it ended ([Returns] or [Throws]). *)

From Stdlib Require Import ZArith QArith Qround Qabs Qpower.
From Stdlib Require Import List Bool Ascii String Lia Lqa.
Import ListNotations.

Open Scope Z_scope.

(** ** The arithmetic of [Math::real] *)

Module Real.

Inductive real : Type :=
| NaN
| Fin (q : Q).

Definition of_Z (z : Z) : real := Fin (inject_Z z).

Definition isnan (x : real) : bool :=
  match x with NaN => true | Fin _ => false end.

Definition lift1 (f : Q -> Q) (x : real) : real :=
  match x with Fin a => Fin (f a) | NaN => NaN end.

Definition lift2 (f : Q -> Q -> Q) (x y : real) : real :=
  match x, y with Fin a, Fin b => Fin (f a b) | _, _ => NaN end.

Definition add : real -> real -> real := lift2 Qplus.
Definition sub : real -> real -> real := lift2 Qminus.
Definition mul : real -> real -> real := lift2 Qmult.

Definition div (x y : real) : real :=
  match x, y with
  | Fin a, Fin b => if Qeq_bool b 0 then NaN else Fin (a / b)
  | _, _ => NaN
  end.

Definition abs : real -> real := lift1 Qabs.

(** Comparisons: every comparison with NaN is false. *)
Definition cmp (f : Q -> Q -> bool) (x y : real) : bool :=
  match x, y with Fin a, Fin b => f a b | _, _ => false end.

Definition leb : real -> real -> bool := cmp Qle_bool.
Definition ltb : real -> real -> bool := cmp (fun a b => negb (Qle_bool b a)).
Definition geb (x y : real) : bool := leb y x.
Definition gtb (x y : real) : bool := ltb y x.
Definition eqb : real -> real -> bool := cmp Qeq_bool.

(** [std::floor]. *)
Definition floor : real -> real := lift1 (fun a => inject_Z (Qfloor a)).

(** [std::pow] with an [int] exponent. *)
Definition pow (x : real) (n : Z) : real :=
  match x with
  | Fin a => if Qeq_bool a 0 && (n <? 0) then NaN else Fin (Qpower a n)
  | NaN => NaN
  end.

(** Truncation of a rational toward zero. *)
Definition truncate (a : Q) : Z := Z.quot (Qnum a) (Zpos (Qden a)).

(** [int(x)]: the value is truncated; outside the range of [int], and for
    NaN, the conversion is undefined in C++ and gives the "integer
    indefinite" value [-2^31] on x86-64, which is what is written here. *)
Definition to_int (x : real) : Z :=
  match x with
  | Fin a =>
      let z := truncate a in
      if (- 2 ^ 31 <=? z) && (z <? 2 ^ 31) then z else - 2 ^ 31
  | NaN => - 2 ^ 31
  end.

(** [(unsigned long long)(x)]: truncation, reduced modulo [2^64]. *)
Definition to_ull (x : real) : Z :=
  match x with
  | Fin a => truncate a mod 2 ^ 64
  | NaN => 2 ^ 63
  end.

(** [numeric_limits<real>::epsilon()] for the 53-bit format. *)
Definition epsilon : real := Fin (1 / inject_Z (2 ^ 52)).

End Real.

Export Real (real, NaN, Fin).

(** ** Outcomes of a call *)

(** [GeographicErr] carries its message. *)
Inductive GeographicErr : Type :=
| Err (msg : string).

(** How a call ended, and the contents of its reference parameters then. *)
Inductive outcome (S : Type) : Type :=
| Returns (s : S)
| Throws (e : GeographicErr) (s : S).

Arguments Returns {S} s.
Arguments Throws {S} e s.

(** What the embedding leaves to the machine: the byte found when a table is
    indexed outside its storage, the bytes of an uninitialised stack buffer,
    and the formatting of a number by [Utility::str] (Utility.hpp is not
    part of the sources at hand). *)
Class Platform : Type := {
  stray : string -> Z -> ascii;
  stack : Z -> ascii;
  Utility_str : real -> string
}.

(** ** Strings *)

Module Str.

(** [s[i]] for a [const std::string]: the character at [i]; the terminating
    NUL at [i = s.size()]; outside that, whatever lies there. *)
Definition at_ `{Platform} (s : string) (i : Z) : ascii :=
  if (0 <=? i) && (i <? Z.of_nat (String.length s)) then
    match String.get (Z.to_nat i) s with
    | Some c => c
    | None => zero
    end
  else if i =? Z.of_nat (String.length s) then zero
  else stray s i.

(** [toupper] in the C locale. *)
Definition toupper (c : ascii) : ascii :=
  let n := nat_of_ascii c in
  if (Nat.leb 97 n && Nat.leb n 122)%bool then ascii_of_nat (n - 32) else c.

(** [s.find(c)]: the first position of [c], counted from [from]. *)
Fixpoint find (c : ascii) (s : string) (from : Z) : option Z :=
  match s with
  | EmptyString => None
  | String d s' => if Ascii.eqb c d then Some from else find c s' (from + 1)
  end.

Definition mem (c : ascii) (s : string) : bool :=
  match find c s 0 with Some _ => true | None => false end.

(** [s.find_first_not_of(chars, pos)]; [None] is [string::npos]. *)
Fixpoint find_first_not_of_from (s chars : string) (skip : nat) (here : Z)
  : option Z :=
  match s with
  | EmptyString => None
  | String d s' =>
      match skip with
      | S k => find_first_not_of_from s' chars k (here + 1)
      | O => if mem d chars then find_first_not_of_from s' chars O (here + 1)
             else Some here
      end
  end.

Definition find_first_not_of (s chars : string) (pos : Z) : option Z :=
  find_first_not_of_from s chars (Z.to_nat pos) 0.

(** [s.substr(pos)] for [pos <= s.size()]. *)
Definition substr (s : string) (pos : Z) : string :=
  String.substring (Z.to_nat pos) (String.length s - Z.to_nat pos) s.

End Str.

(** ** Georef.hpp and Georef.cpp *)

Module Georef.

Import Real.

(** The enum of the class. *)
Definition tile_ : Z := 15.
Definition maxlat_ : Z := 89.
Definition lonorig_ : Z := Z.quot (-180) tile_.
Definition latorig_ : Z := Z.quot (-90) tile_.
Definition base_ : Z := 10.
Definition baselen_ : Z := 4.
Definition maxprec_ : Z := 5 + 6.
Definition mult2_ : Z := 60.
Definition maxlen_ : Z := baselen_ + 2 * maxprec_.

Definition digits_ : string := "0123456789".
Definition lontile_ : string := "ABCDEFGHJKLMNPQRSTUVWXYZ".
Definition lattile_ : string := "ABCDEFGHJKLM".
Definition degrees_ : string := "ABCDEFGHJKLMNPQ".

(** Modelled from the spec: [Math::AngNormalize] (Math.hpp is not part of the
    sources at hand).  "Normalize longitude into [-180,180)": the angle is
    moved by a whole number of turns into that interval. *)
Definition AngNormalize (x : real) : real :=
  lift1 (fun a => a - 360 * inject_Z (Qfloor ((a + 180) / 360)))%Q x.

(** Modelled from the spec: [Utility::lookup] (Utility.hpp is not part of the
    sources at hand).  "The case of the letters is ignored": the position of
    the upper-case form of [c] in the table [s], or [-1] when it is not
    there. *)
Definition lookup (s : string) (c : ascii) : Z :=
  match Str.find (Str.toupper c) s 0 with
  | Some k => k
  | None => -1
  end.

(** *** Forward *)

(** The accesses [Forward] makes: a table indexed at [i], or the buffer
    [georef1] written at [i]. *)
Inductive access : Type :=
| Rd (table : string) (i : Z)
| Wr (i : Z).

(** The buffer [georef1] and the accesses so far, the latest first. *)
Record mem : Type := { georef1 : list ascii; trace : list access }.

Definition M (A : Type) : Type := mem -> A * mem.

Definition ret {A : Type} (a : A) : M A := fun m => (a, m).

Definition bind {A B : Type} (c : M A) (k : A -> M B) : M B :=
  fun m => let (a, m') := c m in k a m'.

Notation "x <- c ;; k" := (bind c (fun x => k))
  (at level 61, c at next level, right associativity).
Notation "c ;;; k" := (bind c (fun _ => k))
  (at level 61, right associativity).

(** A list with position [n] replaced; nothing changes past the end. *)
Fixpoint update (l : list ascii) (n : nat) (c : ascii) : list ascii :=
  match l, n with
  | [], _ => []
  | _ :: l', O => c :: l'
  | d :: l', S n' => d :: update l' n' c
  end.

Section WithPlatform.

Context `{Platform}.

(** [table[i]] *)
Definition index (table : string) (i : Z) : M ascii :=
  fun m => (Str.at_ table i,
            {| georef1 := georef1 m; trace := Rd table i :: trace m |}).

(** [georef1[i] = c]; a write outside the buffer is recorded and leaves the
    buffer as it is. *)
Definition store (i : Z) (c : ascii) : M unit :=
  fun m => (tt,
            {| georef1 := if i <? 0 then georef1 m
                          else update (georef1 m) (Z.to_nat i) c;
               trace := Wr i :: trace m |}).

(** [for (int c = prec; c--;) { ... }]: [c] counts the passes that remain;
    in the body the variable has already been decremented. *)
Fixpoint digits_loop (c : nat) (prec x y : Z) : M unit :=
  match c with
  | O => ret tt
  | S c' =>
      dx <- index digits_ (x mod base_) ;;
      store (baselen_ + Z.of_nat c') dx ;;;
      dy <- index digits_ (y mod base_) ;;
      store (baselen_ + Z.of_nat c' + prec) dy ;;;
      digits_loop c' prec (x / base_) (y / base_)
  end.

(** [prec = max(-1, min(int(maxprec_), prec)); if (prec == 1) ++prec;] *)
Definition clamp_prec (prec : Z) : Z :=
  let prec := Z.max (-1) (Z.min maxprec_ prec) in
  if prec =? 1 then prec + 1 else prec.

(** The statements of [Forward] from the declaration of [georef1] to the
    end of the [if (prec >= 0)] block. *)
Definition fill (ilon ilat prec : Z) (lon lat : real) : M unit :=
  c0 <- index lontile_ (Z.quot ilon tile_ - lonorig_) ;;
  store 0 c0 ;;;
  c1 <- index lattile_ (Z.quot ilat tile_ - latorig_) ;;
  store 1 c1 ;;;
  if prec >=? 0 then
    c2 <- index degrees_ (Z.rem ilon tile_) ;;
    store 2 c2 ;;;
    c3 <- index degrees_ (Z.rem ilat tile_) ;;
    store 3 c3 ;;;
    if prec >? 0 then
      let lon := if eqb lon (of_Z 1)
                 then sub lon (div epsilon (of_Z 2)) else lon in
      let lat := if eqb lat (of_Z 1)
                 then sub lat (div epsilon (of_Z 2)) else lat in
      let mult := mul (pow (of_Z base_) (prec - 2)) (of_Z mult2_) in
      let x := to_ull (floor (mul mult lon)) in
      let y := to_ull (floor (mul mult lat)) in
      digits_loop (Z.to_nat prec) prec x y
    else ret tt
  else ret tt.

(** [char georef1[maxlen_];] *)
Definition fresh : mem :=
  {| georef1 := map (fun n => stack (Z.of_nat n)) (seq 0 (Z.to_nat maxlen_));
     trace := [] |}.

(** [Forward(lat, lon, prec, georef)], with the accesses it made.  The last
    argument is what [georef] held before the call. *)
Definition Forward_run (lat lon : real) (prec : Z) (georef : string)
  : outcome string * list access :=
  if gtb (abs lat) (of_Z 90) then
    (Throws (Err ("Latitude " ++ Utility_str lat ++ "d not in [-90d, 90d]"))
            georef, [])
  else if isnan lat || isnan lon then
    (Returns "INVALID"%string, [])
  else
    let lon := AngNormalize lon in
    let prec := clamp_prec prec in
    let ilon := to_int (floor lon) in
    let lon := sub lon (of_Z ilon) in
    let ilat := Z.min (to_int (floor lat)) maxlat_ in
    let lat := sub lat (of_Z ilat) in
    let m := snd (fill ilon ilat prec lon lat fresh) in
    (Returns (string_of_list_ascii
                (firstn (Z.to_nat (baselen_ + 2 * prec)) (georef1 m))),
     trace m).

Definition Forward (lat lon : real) (prec : Z) (georef : string)
  : outcome string :=
  fst (Forward_run lat lon prec georef).

Definition Forward_trace (lat lon : real) (prec : Z) : list access :=
  snd (Forward_run lat lon prec EmptyString).

(** *** Reverse *)

(** The reference parameters [lat], [lon] and [prec] of [Reverse]. *)
Record outs : Type := { lat : real; lon : real; prec : Z }.

(** Code that may throw. *)
Definition exn (A : Type) : Type := (GeographicErr + A)%type.

Definition throw {A : Type} (msg : string) : exn A := inl (Err msg).

Notation "'check' b 'else_throw' msg ;; k" :=
  (if b then k else throw msg)
  (at level 61, b at next level, msg at next level, right associativity).

(** [for (int i = 0; i < prec1; ++i) { ... }]: [n] counts the passes that
    remain, [i] is the loop variable. *)
Fixpoint minutes_loop (n : nat) (i prec1 : Z) (georef : string)
  (unit lon1 lat1 : real) : exn (real * real * real) :=
  match n with
  | O => inr (unit, lon1, lat1)
  | S n' =>
      let m := if negb (i =? 0) then base_ else 6 in
      let unit := mul unit (of_Z m) in
      let x := lookup digits_ (Str.at_ georef (baselen_ + i)) in
      let y := lookup digits_ (Str.at_ georef (baselen_ + i + prec1)) in
      check negb (negb (negb (i =? 0) || ((x <? m) && (y <? m))))
      else_throw ("Minutes terms in georef must be less than 60 "
                  ++ Str.substr georef baselen_) ;;
      let lon1 := add (mul (of_Z m) lon1) (of_Z x) in
      let lat1 := add (mul (of_Z m) lat1) (of_Z y) in
      minutes_loop n' (i + 1) prec1 georef unit lon1 lat1
  end.

(** The first three characters are, whatever their case, "INV". *)
Definition is_invalid (georef : string) : bool :=
  let len := Z.of_nat (String.length georef) in
  (len >=? 3)
  && Ascii.eqb (Str.toupper (Str.at_ georef 0)) "I"
  && Ascii.eqb (Str.toupper (Str.at_ georef 1)) "N"
  && Ascii.eqb (Str.toupper (Str.at_ georef 2)) "V".

(** [Reverse] after the test for "INV", up to the last throw: the values of
    [prec1], [unit], [lon1] and [lat1] there. *)
Definition parse (georef : string) : exn (Z * real * real * real) :=
  let len := Z.of_nat (String.length georef) in
  check negb (len <? baselen_ - 2)
  else_throw ("Georef must have at least 2 characters " ++ georef) ;;
  let prec1 := Z.quot (2 + len - baselen_) 2 - 1 in
  let k := lookup lontile_ (Str.at_ georef 0) in
  check negb (k <? 0)
  else_throw ("Bad longitude tile letter in georef " ++ georef) ;;
  let lon1 := of_Z (k + lonorig_) in
  let k := lookup lattile_ (Str.at_ georef 1) in
  check negb (k <? 0)
  else_throw ("Bad latitude tile letter in georef " ++ georef) ;;
  let lat1 := of_Z (k + latorig_) in
  let unit := of_Z 1 in
  if len >? 2 then
    let unit := mul unit (of_Z tile_) in
    let k := lookup degrees_ (Str.at_ georef 2) in
    check negb (k <? 0)
    else_throw ("Bad longitude degree letter in georef " ++ georef) ;;
    let lon1 := add (mul lon1 (of_Z tile_)) (of_Z k) in
    check negb (len <? 4)
    else_throw ("Missing latitude degree letter in georef " ++ georef) ;;
    let k := lookup degrees_ (Str.at_ georef 3) in
    check negb (k <? 0)
    else_throw ("Bad latitude degree letter in georef " ++ georef) ;;
    let lat1 := add (mul lat1 (of_Z tile_)) (of_Z k) in
    if prec1 >? 0 then
      check (match Str.find_first_not_of georef digits_ baselen_ with
             | None => true | Some _ => false end)
      else_throw ("Non digits in trailing portion of georef "
                  ++ Str.substr georef baselen_ ++ " " ++ georef) ;;
      check (Z.rem len 2 =? 0)
      else_throw ("Georef must end with an even number of digits "
                  ++ Str.substr georef baselen_) ;;
      check negb (prec1 =? 1)
      else_throw ("Georef needs at least 4 digits for minutes "
                  ++ Str.substr georef baselen_) ;;
      match minutes_loop (Z.to_nat prec1) 0 prec1 georef unit lon1 lat1 with
      | inl e => inl e
      | inr (unit, lon1, lat1) => inr (prec1, unit, lon1, lat1)
      end
    else inr (prec1, unit, lon1, lat1)
  else inr (prec1, unit, lon1, lat1).

(** [Reverse(georef, lat, lon, prec, centerp)]; [out] is what the three
    reference parameters held before the call. *)
Definition Reverse (georef : string) (out : outs) (centerp : bool)
  : outcome outs :=
  if is_invalid georef then
    Returns {| lat := NaN; lon := NaN; prec := prec out |}
  else
    match parse georef with
    | inl e => Throws e out
    | inr (prec1, unit, lon1, lat1) =>
        let unit := if centerp then mul unit (of_Z 2) else unit in
        let lat1 := if centerp then add (mul (of_Z 2) lat1) (of_Z 1)
                    else lat1 in
        let lon1 := if centerp then add (mul (of_Z 2) lon1) (of_Z 1)
                    else lon1 in
        Returns {| lat := div (mul (of_Z tile_) lat1) unit;
                   lon := div (mul (of_Z tile_) lon1) unit;
                   prec := prec1 |}
    end.

End WithPlatform.

End Georef.

(** ** Gnomonic.cpp *)

Module Gnomonic.

Import Real.

(** The geodesic engine, of which only three operations are used.  The
    outputs named [t] in the calls are discarded and left out. *)
Record inverse : Type :=
  { inv_azi1 : real; inv_azi2 : real; inv_m12 : real; inv_M12 : real }.

Record position : Type :=
  { lat2 : real; lon2 : real; azi2 : real; m12 : real; M12 : real }.

Record Geodesic : Type := {
  GeodesicLine : Type;
  GenInverse : real -> real -> real -> real -> inverse;
  Line : real -> real -> real -> GeodesicLine;
  Position : GeodesicLine -> real -> position
}.

(** The members of a [Gnomonic] object. *)
Record Gnomonic : Type := { _earth : Geodesic; _a : real }.

(** What the file takes from elsewhere: the functions of the C++ library,
    [Math::hypot] and [Math::degree<real>()] of Math.hpp, the constant
    [numit_] of Gnomonic.hpp (neither header is part of the sources at
    hand), and what the locals [lat1], [lon1], [azi1] and [M] of [Reverse]
    hold before they are first assigned. *)
Class Env : Type := {
  sin : real -> real;
  cos : real -> real;
  atan : real -> real;
  sqrt : real -> real;
  atan2 : real -> real -> real;
  hypot : real -> real -> real;
  degree : real;
  numit_ : nat;
  locals : position
}.

(** The four results of [Forward]. *)
Record planar : Type := { x : real; y : real; azi : real; rk : real }.

(** The four results of [Reverse]. *)
Record geodetic : Type :=
  { lat : real; lon : real; r_azi : real; r_rk : real }.

(** The variables of the loop of [Reverse]; [evals] lists the arc lengths at
    which the line has been evaluated, the latest first. *)
Record loop : Type := {
  s : real; trip : Z;
  lat1 : real; lon1 : real; azi1 : real; M : real;
  evals : list real
}.

Section WithEnv.

Context `{Env}.

Definition eps0_ : real := epsilon.
Definition eps_ : real := mul (Fin (1 # 100)) (sqrt eps0_).

(** [Forward(lat0, lon0, lat, lon, x, y, azi, rk)]: all four reference
    parameters are assigned on every path. *)
Definition Forward (this : Gnomonic) (lat0 lon0 lat lon : real) : planar :=
  let r := GenInverse (_earth this) lat0 lon0 lat lon in
  let azi0 := inv_azi1 r in
  let azi := inv_azi2 r in
  let m := inv_m12 r in
  let M := inv_M12 r in
  let rk := M in
  if leb M (of_Z 0) then
    {| x := NaN; y := NaN; azi := azi; rk := rk |}
  else
    let rho := div m M in
    let azi0 := mul azi0 degree in
    {| x := mul rho (sin azi0); y := mul rho (cos azi0);
       azi := azi; rk := rk |}.

(** [ds] as computed in the body of the loop. *)
Definition correction (little : bool) (rho m M : real) : real :=
  if little then mul (mul (sub (div m M) rho) M) M
  else mul (mul (sub rho (div M m)) m) m.

(** [while (count--) { ... }]: [count] is the value tested. *)
Fixpoint iterate (this : Gnomonic) (line : GeodesicLine (_earth this))
  (little : bool) (rho : real) (count : nat) (st : loop) : loop :=
  match count with
  | O => st
  | S count' =>
      let p := Position (_earth this) line (s st) in
      let st := {| s := s st; trip := trip st;
                   lat1 := lat2 p; lon1 := lon2 p; azi1 := azi2 p;
                   M := M12 p; evals := s st :: evals st |} in
      if negb (trip st =? 0) then st
      else
        let ds := correction little rho (m12 p) (M st) in
        let s' := sub (s st) ds in
        let trip' := if negb (geb (abs ds) (mul eps_ (_a this)))
                     then trip st + 1 else trip st in
        iterate this line little rho count'
          {| s := s'; trip := trip';
             lat1 := lat1 st; lon1 := lon1 st; azi1 := azi1 st; M := M st;
             evals := evals st |}
  end.

(** [Reverse(lat0, lon0, x, y, lat, lon, azi, rk)], with the arc lengths at
    which it evaluated the line. *)
Definition Reverse_run (this : Gnomonic) (lat0 lon0 x y : real)
  : geodetic * list real :=
  let azi0 := div (atan2 x y) degree in
  let rho := hypot x y in
  let s0 := mul (_a this) (atan (div rho (_a this))) in
  let little := leb rho (_a this) in
  let rho := if negb little then div (of_Z 1) rho else rho in
  let line := Line (_earth this) lat0 lon0 azi0 in
  let st := iterate this line little rho numit_
              {| s := s0; trip := 0;
                 lat1 := lat2 locals; lon1 := lon2 locals;
                 azi1 := azi2 locals; M := M12 locals; evals := [] |} in
  (if negb (trip st =? 0) then
     {| lat := lat1 st; lon := lon1 st; r_azi := azi1 st; r_rk := M st |}
   else
     {| lat := NaN; lon := NaN; r_azi := NaN; r_rk := NaN |},
   evals st).

Definition Reverse (this : Gnomonic) (lat0 lon0 x y : real) : geodetic :=
  fst (Reverse_run this lat0 lon0 x y).

End WithEnv.

End Gnomonic.

(** ** Notions used to state the properties *)

Module Spec.

Import Real.

(** An access stays inside the table it reads, or inside [georef1]. *)
Definition in_bounds (a : Georef.access) : bool :=
  match a with
  | Georef.Rd table i => (0 <=? i) && (i <? Z.of_nat (String.length table))
  | Georef.Wr i => (0 <=? i) && (i <? Georef.maxlen_)
  end.

(** The width in degrees of the cell a georef of precision [p] names: 15
    degrees, one degree, then one minute divided by ten for every level
    above 2. *)
Definition cell_width (p : Z) : Q :=
  if p <? 0 then 15
  else if p =? 0 then 1
  else 1 / (60 * inject_Z (10 ^ (p - 2))).

(** The sentence "a NaN coordinate gives INVALID", with no condition on the
    other coordinate. *)
Definition nan_always_INVALID `{Platform} : Prop :=
  forall (lat lon : real) (prec : Z) (georef : string),
    isnan lat || isnan lon = true ->
    Georef.Forward lat lon prec georef = Returns "INVALID"%string.

(** The sentence "a string of [4 + 2k] characters has precision [k + 2]". *)
Definition precision_is_pairs_plus_two `{Platform} : Prop :=
  forall (georef : string) (out r : Georef.outs) (centerp : bool) (k : Z),
    Georef.is_invalid georef = false ->
    0 <= k ->
    Z.of_nat (String.length georef) = 4 + 2 * k ->
    Georef.Reverse georef out centerp = Returns r ->
    Georef.prec r = k + 2.

(** The product of the bases of [n] passes of the digit loop that start
    with the loop variable at [i]. *)
Definition weight (n : nat) (i : Z) : Z :=
  match n with
  | O => 1
  | S n' => (if i =? 0 then 6 else Georef.base_) * Georef.base_ ^ Z.of_nat n'
  end.

(** Running a computation for its effect on the memory. *)
Definition run {A : Type} (c : Georef.M A) (m : Georef.mem) : Georef.mem :=
  snd (c m).

(** The buffer keeps its size and every access so far satisfies [ok]. *)
Definition good (ok : Georef.access -> Prop) (m : Georef.mem) : Prop :=
  List.length (Georef.georef1 m) = Z.to_nat Georef.maxlen_
  /\ Forall ok (Georef.trace m).

(** An access is in bounds, or it is one of the two reads of [degrees_]
    that [Forward] makes for the degrees [ilon] and [ilat]. *)
Definition tolerable (ilon ilat : Z) (a : Georef.access) : Prop :=
  in_bounds a = true
  \/ a = Georef.Rd Georef.degrees_ (Z.rem ilon Georef.tile_)
  \/ a = Georef.Rd Georef.degrees_ (Z.rem ilat Georef.tile_).

(** The decimal digit of weight [10^k] of [v], as [Forward] writes it. *)
Definition digit (v : Z) (k : nat) : Z := (v / 10 ^ Z.of_nat k) mod 10.

(** The integer [x] (or [y]) whose digits [Forward] writes for the part
    [frac] of a degree left after the whole degrees are taken out. *)
Definition minutes (prec : Z) (frac : real) : Z :=
  let frac := if Real.eqb frac (Real.of_Z 1)
              then Real.sub frac (Real.div Real.epsilon (Real.of_Z 2))
              else frac in
  let mult := Real.mul (Real.pow (Real.of_Z Georef.base_) (prec - 2))
                       (Real.of_Z Georef.mult2_) in
  Real.to_ull (Real.floor (Real.mul mult frac)).

(** The number, counted from the origin of the tiles, of the cell that the
    tile [t], the degree [d] in it and the minutes [v] name along one axis
    at precision [p]. *)
Definition cell_number (p t d v : Z) : Z :=
  if p <? 0 then t
  else if p =? 0 then t * 15 + d
  else (t * 15 + d) * (6 * 10 ^ (p - 1)) + v.

(** The string [Forward] lays out at precision [p] for the whole degrees
    [ilon] and [ilat] and the minutes [x] and [y]: two tile letters, two
    degree letters when [p] is not negative, then the [p] digits of [x] and
    the [p] digits of [y]. *)
Definition layout `{Platform} (p ilon ilat x y : Z) (s : string) : Prop :=
  Z.of_nat (String.length s) = 4 + 2 * p
  /\ String.get 0 s
     = Some (Str.at_ Georef.lontile_
               (Z.quot ilon Georef.tile_ - Georef.lonorig_))
  /\ String.get 1 s
     = Some (Str.at_ Georef.lattile_
               (Z.quot ilat Georef.tile_ - Georef.latorig_))
  /\ (0 <= p ->
      String.get 2 s = Some (Str.at_ Georef.degrees_ (Z.rem ilon Georef.tile_))
      /\ String.get 3 s
         = Some (Str.at_ Georef.degrees_ (Z.rem ilat Georef.tile_)))
  /\ (0 < p ->
      forall i, (i < Z.to_nat p)%nat ->
        String.get (4 + i) s
        = Some (Str.at_ Georef.digits_ (digit x (Z.to_nat p - 1 - i)))
        /\ String.get (4 + Z.to_nat p + i) s
           = Some (Str.at_ Georef.digits_ (digit y (Z.to_nat p - 1 - i)))).

End Spec.

(** A platform to run the definitions on. *)
Definition plain : Platform :=
  {| stray := fun _ _ => "?"%char;
     stack := fun _ => "#"%char;
     Utility_str := fun _ => "<lat>"%string |}.

(** *** The iteration of [Gnomonic::Reverse] *)

Module Newton.

Import Real.

Section WithEnv.

Context `{Gnomonic.Env}.

Variable this : Gnomonic.Gnomonic.
Variables lat0 lon0 x y : real.

(** The values [Reverse] computes before the loop. *)
Definition line : Gnomonic.GeodesicLine (Gnomonic._earth this) :=
  Gnomonic.Line (Gnomonic._earth this) lat0 lon0
    (div (Gnomonic.atan2 x y) Gnomonic.degree).

Definition little : bool := leb (Gnomonic.hypot x y) (Gnomonic._a this).

Definition rho : real :=
  if negb little then div (of_Z 1) (Gnomonic.hypot x y)
  else Gnomonic.hypot x y.

Definition s0 : real :=
  mul (Gnomonic._a this)
      (Gnomonic.atan (div (Gnomonic.hypot x y) (Gnomonic._a this))).

(** The correction [ds] that a pass evaluating the line at [s] computes,
    and the arc length it leaves. *)
Definition ds_at (s : real) : real :=
  let p := Gnomonic.Position (Gnomonic._earth this) line s in
  Gnomonic.correction little rho (Gnomonic.m12 p) (Gnomonic.M12 p).

Definition next (s : real) : real := sub s (ds_at s).

(** The arc length after [k] corrections: pass [k + 1] evaluates the line
    there. *)
Definition arc (k : nat) : real := Nat.iter k next s0.

(** The arc lengths of the first [n] passes, the latest first. *)
Definition arcs (n : nat) : list real := rev (map arc (seq 0 n)).

(** The test of the code on the correction of pass [k + 1], and the
    comparison [abs(ds) < eps_ * a]. *)
Definition trips_at (s : real) : bool :=
  negb (geb (abs (ds_at s)) (mul Gnomonic.eps_ (Gnomonic._a this))).

Definition trips (k : nat) : bool := trips_at (arc k).

Definition below (k : nat) : bool :=
  ltb (abs (ds_at (arc k))) (mul Gnomonic.eps_ (Gnomonic._a this)).

(** The point, azimuth and scale of the line at arc length [s]. *)
Definition at_arc (s : real) : Gnomonic.geodetic :=
  let p := Gnomonic.Position (Gnomonic._earth this) line s in
  {| Gnomonic.lat := Gnomonic.lat2 p; Gnomonic.lon := Gnomonic.lon2 p;
     Gnomonic.r_azi := Gnomonic.azi2 p; Gnomonic.r_rk := Gnomonic.M12 p |}.

(** The arc lengths of [n] passes that start at [s], the latest first. *)
Definition trail (s : real) (n : nat) : list real :=
  rev (map (fun j => Nat.iter j next s) (seq 0 n)).

(** The results as [Reverse] copies them from the variables of the loop. *)
Definition result (st : Gnomonic.loop) : Gnomonic.geodetic :=
  {| Gnomonic.lat := Gnomonic.lat1 st; Gnomonic.lon := Gnomonic.lon1 st;
     Gnomonic.r_azi := Gnomonic.azi1 st; Gnomonic.r_rk := Gnomonic.M st |}.

Definition all_NaN : Gnomonic.geodetic :=
  {| Gnomonic.lat := NaN; Gnomonic.lon := NaN;
     Gnomonic.r_azi := NaN; Gnomonic.r_rk := NaN |}.

(** The sentence "when [abs(ds) < eps_ * a] is first observed, exactly one
    more evaluation is made, at the final arc length, and it is the
    result", for whichever pass observes it. *)
Definition confirm_pass_always : Prop :=
  forall k : nat,
    (k < Gnomonic.numit_)%nat ->
    below k = true ->
    (forall j, (j < k)%nat -> below j = false) ->
    Gnomonic.Reverse_run this lat0 lon0 x y = (at_arc (arc (S k)), arcs (S (S k))).

End WithEnv.

End Newton.

(** An environment to run the projection in: polynomials that are exact at
    0 stand for the trigonometric functions, the square root is exact on
    squares of rationals, and the cap on the passes is 10. *)
Definition toy_sqrt (x : real) : real :=
  match x with
  | Fin a => if Qle_bool 0 a then Fin (Z.sqrt (Qnum a) # Pos.sqrt (Qden a))
             else NaN
  | NaN => NaN
  end.

Definition toy : Gnomonic.Env :=
  let cube x := Real.mul x (Real.mul x x) in
  {| Gnomonic.sin := fun x => Real.sub x (Real.div (cube x) (Real.of_Z 6));
     Gnomonic.cos :=
       fun x => Real.sub (Real.of_Z 1) (Real.div (Real.mul x x) (Real.of_Z 2));
     Gnomonic.atan := fun x => Real.sub x (Real.div (cube x) (Real.of_Z 3));
     Gnomonic.sqrt := toy_sqrt;
     Gnomonic.atan2 :=
       fun x y => if Real.eqb x (Real.of_Z 0) then Real.of_Z 0
                  else Real.div x y;
     Gnomonic.hypot :=
       fun x y => toy_sqrt (Real.add (Real.mul x x) (Real.mul y y));
     Gnomonic.degree := Fin (355 # 20340);
     Gnomonic.numit_ := 10;
     Gnomonic.locals :=
       {| Gnomonic.lat2 := Fin 1; Gnomonic.lon2 := Fin 2; Gnomonic.azi2 := Fin 3;
          Gnomonic.m12 := Fin 4; Gnomonic.M12 := Fin 5 |} |}.

(** Engines to run it with.  On a plane a line keeps its azimuth, the
    reduced length is the distance and the scale is 1. *)
Definition flat : Gnomonic.Geodesic :=
  {| Gnomonic.GeodesicLine := real * real;
     Gnomonic.GenInverse :=
       fun lat0 lon0 lat lon =>
         {| Gnomonic.inv_azi1 := Fin 0; Gnomonic.inv_azi2 := Fin 0;
            Gnomonic.inv_m12 := Real.sub lat lat0;
            Gnomonic.inv_M12 := Fin 1 |};
     Gnomonic.Line := fun lat0 lon0 azi0 => (lat0, lon0);
     Gnomonic.Position :=
       fun l s =>
         {| Gnomonic.lat2 := Real.add (fst l) s; Gnomonic.lon2 := snd l;
            Gnomonic.azi2 := Fin 0; Gnomonic.m12 := s;
            Gnomonic.M12 := Fin 1 |} |}.

(** An engine whose scale is negative everywhere. *)
Definition beyond : Gnomonic.Geodesic :=
  {| Gnomonic.GeodesicLine := unit;
     Gnomonic.GenInverse :=
       fun lat0 lon0 lat lon =>
         {| Gnomonic.inv_azi1 := Fin 30; Gnomonic.inv_azi2 := Fin 40;
            Gnomonic.inv_m12 := Fin 7; Gnomonic.inv_M12 := Fin (-1) |};
     Gnomonic.Line := fun _ _ _ => tt;
     Gnomonic.Position :=
       fun _ s =>
         {| Gnomonic.lat2 := s; Gnomonic.lon2 := Fin 0; Gnomonic.azi2 := Fin 0;
            Gnomonic.m12 := Fin 7; Gnomonic.M12 := Fin (-1) |} |}.

(** An engine on whose lines every correction covers half of what remains
    to the arc length [c]; it gives the reduced length in lowest terms. *)
Definition halving (c : Q) : Gnomonic.Geodesic :=
  {| Gnomonic.GeodesicLine := unit;
     Gnomonic.GenInverse :=
       fun lat0 lon0 lat lon =>
         {| Gnomonic.inv_azi1 := Fin 0; Gnomonic.inv_azi2 := Fin 0;
            Gnomonic.inv_m12 := Fin 0; Gnomonic.inv_M12 := Fin 1 |};
     Gnomonic.Line := fun _ _ _ => tt;
     Gnomonic.Position :=
       fun _ s =>
         {| Gnomonic.lat2 := s; Gnomonic.lon2 := Fin 0; Gnomonic.azi2 := Fin 0;
            Gnomonic.m12 :=
              Real.lift1 Qred (Real.div (Real.sub s (Fin c)) (Fin 2));
            Gnomonic.M12 := Fin 1 |} |}.

Definition wgs84_a : real := Fin 6378137.

(** Projections on those engines. *)
Definition on_plane : Gnomonic.Gnomonic :=
  {| Gnomonic._earth := flat; Gnomonic._a := wgs84_a |}.

Definition past_horizon : Gnomonic.Gnomonic :=
  {| Gnomonic._earth := beyond; Gnomonic._a := wgs84_a |}.

(** With [c = 3/4] the corrections are [3/8], [3/16], ... and the tenth,
    [3/4096], is the first below [eps_ * a], which is about [0.00095]. *)
Definition slow : Gnomonic.Gnomonic :=
  {| Gnomonic._earth := halving (3 # 4); Gnomonic._a := wgs84_a |}.

(** With [c = 1000] the tenth correction is still about [0.98]. *)
Definition too_slow : Gnomonic.Gnomonic :=
  {| Gnomonic._earth := halving 1000; Gnomonic._a := wgs84_a |}.

(** Variants of a platform and of an environment, to compare runs. *)

(** The platform [P] with other bytes in the uninitialised buffer. *)
Definition with_stack (P : Platform) (st : Z -> ascii) : Platform :=
  {| stray := @stray P; stack := st; Utility_str := @Utility_str P |}.

(** The environment [E] with other values in the locals of [Reverse]. *)
Definition with_locals (E : Gnomonic.Env) (l : Gnomonic.position)
  : Gnomonic.Env :=
  {| Gnomonic.sin := @Gnomonic.sin E; Gnomonic.cos := @Gnomonic.cos E;
     Gnomonic.atan := @Gnomonic.atan E; Gnomonic.sqrt := @Gnomonic.sqrt E;
     Gnomonic.atan2 := @Gnomonic.atan2 E; Gnomonic.hypot := @Gnomonic.hypot E;
     Gnomonic.degree := @Gnomonic.degree E;
     Gnomonic.numit_ := @Gnomonic.numit_ E;
     Gnomonic.locals := l |}.

(** * Properties *)

(** ** Arithmetic of [real] *)

Section RealFacts.

Import Real.

Lemma isnan_false (x : real) : isnan x = false -> exists a, x = Fin a.
Proof. destruct x as [|a]; [discriminate | now exists a]. Qed.

Lemma gtb_abs_false (a : Q) (b : Z) :
  gtb (abs (Fin a)) (of_Z b) = false <-> (Qabs a <= inject_Z b)%Q.
Proof.
  unfold gtb, ltb, abs, of_Z, cmp, lift1.
  rewrite negb_false_iff. apply Qle_bool_iff.
Qed.

End RealFacts.

(** ** Georef: the guards of [Forward] *)

Section GeorefGuards.

Context `{Platform}.

Import Real.

Lemma Forward_throws (lat lon : real) (prec : Z) (georef : string) :
  gtb (abs lat) (of_Z 90) = true ->
  Georef.Forward_run lat lon prec georef =
  (Throws (Err ("Latitude " ++ Utility_str lat ++ "d not in [-90d, 90d]"))
          georef, []).
Proof. intros E. unfold Georef.Forward_run. now rewrite E. Qed.

Lemma Forward_returns (lat lon : real) (prec : Z) (georef : string) :
  gtb (abs lat) (of_Z 90) = false ->
  exists s, Georef.Forward lat lon prec georef = Returns s.
Proof.
  intros E. unfold Georef.Forward, Georef.Forward_run. rewrite E.
  destruct (isnan lat || isnan lon); simpl; eauto.
Qed.

(** C7, as amended.  [Forward] throws exactly when [abs(lat) > 90] holds,
    and then [georef] is left as it was and nothing has been computed; and
    whenever that test is false (as it is for a NaN latitude) and [lat] or
    [lon] is NaN, it returns the string "INVALID" without touching a table
    or the buffer. *)
Theorem Forward_range_then_nan (lat lon : real) (prec : Z) (georef : string) :
  ((exists e g, Georef.Forward lat lon prec georef = Throws e g)
   <-> gtb (abs lat) (of_Z 90) = true)
  /\ (forall e g, Georef.Forward lat lon prec georef = Throws e g ->
      g = georef /\ Georef.Forward_trace lat lon prec = [])
  /\ gtb (abs NaN) (of_Z 90) = false
  /\ (gtb (abs lat) (of_Z 90) = false ->
      isnan lat || isnan lon = true ->
      Georef.Forward_run lat lon prec georef = (Returns "INVALID"%string, [])).
Proof.
  split; [split|split; [|split]].
  - intros (e & g & E). destruct (gtb (abs lat) (of_Z 90)) eqn:G; [easy|].
    destruct (Forward_returns lat lon prec georef G) as [s Hs]. congruence.
  - intros G. unfold Georef.Forward.
    rewrite (Forward_throws _ _ _ _ G). simpl. eauto.
  - intros e g E. destruct (gtb (abs lat) (of_Z 90)) eqn:G.
    + unfold Georef.Forward, Georef.Forward_trace in *.
      rewrite (Forward_throws _ _ _ georef G) in E.
      rewrite (Forward_throws _ _ _ EmptyString G).
      simpl in *. split; congruence.
    + destruct (Forward_returns lat lon prec georef G) as [s Hs]. congruence.
  - reflexivity.
  - intros G N. unfold Georef.Forward_run. now rewrite G, N.
Qed.

End GeorefGuards.

(** C7 as it was stated fails: with a latitude of 100 degrees and a NaN
    longitude the range test comes first and the call throws. *)
Lemma nan_longitude_out_of_range_latitude_throws :
  Georef.Forward (H := plain) (Fin 100) NaN 3 "old"
  = Throws (Err "Latitude <lat>d not in [-90d, 90d]") "old"%string
  /\ ~ Spec.nan_always_INVALID (H := plain).
Proof.
  split; [reflexivity|].
  intros C. specialize (C (Fin 100) NaN 3 "old"%string eq_refl). discriminate.
Qed.

Lemma Forward_range_then_nan_witness :
  Georef.Forward_run (H := plain) NaN (Fin 10) 3 "old"
  = (Returns "INVALID"%string, []).
Proof.
  destruct (Forward_range_then_nan (H := plain) NaN (Fin 10) 3 "old")
    as (_ & _ & _ & W).
  exact (W eq_refl eq_refl).
Defined.

(** ** Strings *)

Section StrFacts.

Context `{Platform}.

Lemma get_lt (s : string) (n : nat) (c : ascii) :
  String.get n s = Some c -> (n < String.length s)%nat.
Proof.
  revert n. induction s as [|d s IH]; intros [|n]; simpl; try discriminate.
  - lia.
  - intros E. apply IH in E. lia.
Qed.

Lemma at_get (s : string) (n : nat) (c : ascii) :
  String.get n s = Some c -> Str.at_ s (Z.of_nat n) = c.
Proof.
  intros E. pose proof (get_lt _ _ _ E) as L. unfold Str.at_.
  replace ((0 <=? Z.of_nat n) && (Z.of_nat n <? Z.of_nat (String.length s)))
    with true by (symmetry; apply andb_true_iff; split;
                  [apply Z.leb_le | apply Z.ltb_lt]; lia).
  now rewrite Nat2Z.id, E.
Qed.

Lemma at_0 (a : ascii) (s : string) : Str.at_ (String a s) 0 = a.
Proof. apply (at_get (String a s) 0). reflexivity. Qed.

Lemma at_1 (a b : ascii) (s : string) : Str.at_ (String a (String b s)) 1 = b.
Proof. apply (at_get (String a (String b s)) 1). reflexivity. Qed.

Lemma at_2 (a b c : ascii) (s : string) :
  Str.at_ (String a (String b (String c s))) 2 = c.
Proof. apply (at_get (String a (String b (String c s))) 2). reflexivity. Qed.

End StrFacts.

(** ** Georef: [Reverse] *)

Section ReverseFacts.

Context `{Platform}.

Import Real.

(** C9.  When the first three characters of the string are, whatever their
    case, "INV", [Reverse] returns normally with NaN in [lat] and in [lon]
    and with [prec] holding what it held before the call. *)
Theorem Reverse_INV_keeps_prec (a b c : ascii) (rest : string)
  (out : Georef.outs) (centerp : bool) :
  Str.toupper a = "I"%char ->
  Str.toupper b = "N"%char ->
  Str.toupper c = "V"%char ->
  Georef.Reverse (String a (String b (String c rest))) out centerp
  = Returns {| Georef.lat := NaN; Georef.lon := NaN;
               Georef.prec := Georef.prec out |}.
Proof.
  intros Ea Eb Ec. unfold Georef.Reverse, Georef.is_invalid.
  rewrite at_0, at_1, at_2, Ea, Eb, Ec.
  replace (Z.of_nat (String.length (String a (String b (String c rest))))
           >=? 3) with true; [reflexivity|].
  symmetry. apply Z.geb_le. simpl String.length. lia.
Qed.

Lemma minutes_loop_unit (n : nat) :
  forall (i prec1 : Z) (georef : string) (u lo la : Q) r,
    0 <= i ->
    Georef.minutes_loop n i prec1 georef (Fin u) (Fin lo) (Fin la) = inr r ->
    exists u' lo' la',
      r = (Fin u', Fin lo', Fin la') /\ (u' == u * inject_Z (Spec.weight n i))%Q.
Proof.
  induction n as [|n IH]; intros i prec1 georef u lo la r Hi E.
  - simpl in E. injection E as <-. exists u, lo, la. split; [easy|].
    simpl. ring.
  - cbn [Georef.minutes_loop] in E.
    match type of E with
    | (if ?b then _ else _) = _ => destruct b; [|discriminate E]
    end.
    apply IH in E; [|lia]. destruct E as (u' & lo' & la' & -> & Eu).
    exists u', lo', la'. split; [easy|]. rewrite Eu.
    unfold Spec.weight. destruct n as [|n].
    + unfold Georef.base_. destruct (i =? 0); simpl; ring.
    + replace (i + 1 =? 0) with false by (symmetry; apply Z.eqb_neq; lia).
      rewrite (Nat2Z.inj_succ n), Z.pow_succ_r by lia.
      unfold Georef.base_.
      destruct (i =? 0); cbn [negb]; rewrite !inject_Z_mult; ring.
Qed.

(** What a successful [parse] has computed: the precision follows from the
    length alone, the three numbers are finite, and [unit] is the number of
    cells of that precision in a tile. *)
Lemma parse_inr (georef : string) (p : Z) (u lo la : real) :
  Georef.parse georef = inr (p, u, lo, la) ->
  p = Z.quot (2 + Z.of_nat (String.length georef) - Georef.baselen_) 2 - 1
  /\ 2 <= Z.of_nat (String.length georef)
  /\ (p = -1 \/ p = 0 \/ 2 <= p)
  /\ exists u' lo' la',
      u = Fin u' /\ lo = Fin lo' /\ la = Fin la'
      /\ (u' * Spec.cell_width p == 15)%Q.
Proof.
  unfold Georef.parse. intros E.
  set (len := Z.of_nat (String.length georef)) in *.
  set (p1 := Z.quot (2 + len - Georef.baselen_) 2 - 1) in *.
  assert (Hq : 2 * (p1 + 1) <= 2 + len - 4 < 2 * (p1 + 1) + 2 \/ len < 2).
  { destruct (Z_lt_le_dec len 2) as [L|L]; [now right|left].
    subst p1. unfold Georef.baselen_.
    pose proof (Z.quot_rem' (2 + len - 4) 2) as Q.
    pose proof (Z.rem_bound_pos (2 + len - 4) 2 ltac:(lia) ltac:(lia)).
    lia. }
  unfold Georef.throw in E.
  destruct (negb (len <? Georef.baselen_ - 2)) eqn:T0; [|discriminate E].
  apply negb_true_iff, Z.ltb_ge in T0. unfold Georef.baselen_ in T0.
  destruct (negb (_ <? 0)) in E; [|discriminate E].
  destruct (negb (_ <? 0)) in E; [|discriminate E].
  destruct (len >? 2) eqn:T3.
  - destruct (negb (_ <? 0)) in E; [|discriminate E].
    destruct (negb (len <? 4)) eqn:T4; [|discriminate E].
    apply negb_true_iff, Z.ltb_ge in T4.
    destruct (negb (_ <? 0)) in E; [|discriminate E].
    destruct (p1 >? 0) eqn:T5.
    + destruct (Str.find_first_not_of _ _ _) in E; [discriminate E|].
      destruct (Z.rem len 2 =? 0) in E; [|discriminate E].
      destruct (negb (p1 =? 1)) eqn:T6; [|discriminate E].
      apply negb_true_iff, Z.eqb_neq in T6.
      apply Z.gtb_lt in T5.
      cbn [of_Z mul add lift2] in E.
      destruct (Georef.minutes_loop _ _ _ _ _ _ _) as [e|r] eqn:L;
        [discriminate E|].
      apply minutes_loop_unit in L; [|lia].
      destruct L as (u' & lo' & la' & -> & Eu).
      injection E as <- <- <- <-.
      repeat split; try lia. exists u', lo', la'. repeat split. rewrite Eu.
      unfold Spec.cell_width, Spec.weight.
      replace (p1 <? 0) with false by (symmetry; apply Z.ltb_ge; lia).
      replace (p1 =? 0) with false by (symmetry; apply Z.eqb_neq; lia).
      destruct (Z.to_nat p1) as [|n] eqn:N; [lia|].
      replace (Z.of_nat n) with (p1 - 2 + 1) by lia.
      rewrite Z.pow_add_r by lia. cbn [Z.eqb].
      rewrite !inject_Z_mult. unfold Georef.tile_, Georef.base_.
      assert (P : ~ (inject_Z (10 ^ (p1 - 2)) == 0)%Q).
      { change 0%Q with (inject_Z 0). rewrite inject_Z_injective.
        apply Z.pow_nonzero; lia. }
      change (10 ^ 1) with 10. field. exact P.
    + rewrite Z.gtb_ltb in T5. apply Z.ltb_ge in T5. apply Z.gtb_lt in T3.
      injection E as <- <- <- <-. cbn [of_Z mul add lift2].
      assert (p1 = 0) by lia.
      repeat split; try lia. do 3 eexists. repeat split.
      replace p1 with 0 by lia. reflexivity.
  - rewrite Z.gtb_ltb in T3. apply Z.ltb_ge in T3.
    injection E as <- <- <- <-. assert (p1 = -1) by lia.
    repeat split; try lia. do 3 eexists. repeat split.
    replace p1 with (-1) by lia. reflexivity.
Qed.

Lemma Reverse_parse (georef : string) (out : Georef.outs) (centerp : bool)
  (r : Georef.outs) :
  Georef.is_invalid georef = false ->
  Georef.Reverse georef out centerp = Returns r ->
  exists p u lo la,
    Georef.parse georef = inr (p, Fin u, Fin lo, Fin la)
    /\ r = {| Georef.lat :=
               if centerp
               then div (Fin (inject_Z 15 * (inject_Z 2 * la + inject_Z 1)))
                        (Fin (u * inject_Z 2))
               else div (Fin (inject_Z 15 * la)) (Fin u);
             Georef.lon :=
               if centerp
               then div (Fin (inject_Z 15 * (inject_Z 2 * lo + inject_Z 1)))
                        (Fin (u * inject_Z 2))
               else div (Fin (inject_Z 15 * lo)) (Fin u);
             Georef.prec := p |}.
Proof.
  intros I E. unfold Georef.Reverse in E. rewrite I in E.
  destruct (Georef.parse georef) as [e|[[[p u] lo] la]] eqn:P;
    [discriminate E|].
  destruct (parse_inr _ _ _ _ _ P) as (_ & _ & _ & u' & lo' & la' & -> & -> & -> & _).
  exists p, u', lo', la'. split; [reflexivity|].
  injection E as <-. destruct centerp; reflexivity.
Qed.

(** C8, as amended.  A string that does not start with "INV" and that
    [Reverse] accepts has at least 2 characters, and the precision returned
    is [(2 + len - 4) / 2 - 1] in integer division: -1 for 2 characters, 0
    for 4, 2 for 8, 3 for 10, and in general [k] for [4 + 2k] characters. *)
Theorem Reverse_precision_from_length (georef : string) (out r : Georef.outs)
  (centerp : bool) :
  Georef.is_invalid georef = false ->
  Georef.Reverse georef out centerp = Returns r ->
  let len := Z.of_nat (String.length georef) in
  2 <= len
  /\ Georef.prec r = Z.quot (2 + len - 4) 2 - 1
  /\ Georef.prec r = (2 + len - 4) / 2 - 1
  /\ (len = 2 -> Georef.prec r = -1)
  /\ (len = 4 -> Georef.prec r = 0)
  /\ (len = 8 -> Georef.prec r = 2)
  /\ (len = 10 -> Georef.prec r = 3)
  /\ (forall k, 0 <= k -> len = 4 + 2 * k -> Georef.prec r = k).
Proof.
  intros I E len.
  destruct (Reverse_parse _ _ _ _ I E) as (p & u & lo & la & P & ->).
  apply parse_inr in P. destruct P as (Hp & L & _). fold len in Hp, L.
  unfold Georef.baselen_ in Hp. cbn [Georef.prec].
  assert (Q : Z.quot (2 + len - 4) 2 = (2 + len - 4) / 2)
    by (apply Z.quot_div_nonneg; lia).
  rewrite Q in Hp.
  assert (D : forall k, len = 4 + 2 * k -> (2 + len - 4) / 2 = k + 1).
  { intros k ->. replace (2 + (4 + 2 * k) - 4) with ((k + 1) * 2) by lia.
    apply Z.div_mul. lia. }
  repeat split; try lia.
  - intros L2. rewrite (D (-1)) in Hp; lia.
  - intros L4. rewrite (D 0) in Hp; lia.
  - intros L8. rewrite (D 2) in Hp; lia.
  - intros L10. rewrite (D 3) in Hp; lia.
  - intros k _ Lk. rewrite (D k) in Hp; lia.
Qed.


Lemma find_first_not_of_None (chars : string) :
  forall (s : string) (skip : nat) (here : Z),
    Str.find_first_not_of_from s chars skip here = None ->
    forall (n : nat) (c : ascii),
      (skip <= n)%nat -> String.get n s = Some c -> Str.mem c chars = true.
Proof.
  induction s as [|d s IH]; intros skip here E n c L G; [discriminate G|].
  cbn [Str.find_first_not_of_from] in E. destruct skip as [|skip].
  - destruct (Str.mem d chars) eqn:D; [|discriminate E].
    destruct n as [|n]; cbn [String.get] in G.
    + now injection G as <-.
    + apply (IH 0%nat _ E n c); [lia | exact G].
  - destruct n as [|n]; [lia|]. cbn [String.get] in G.
    apply (IH skip _ E n c); [lia | exact G].
Qed.

(** From six characters on, a successful [parse] has checked the
    characters after the prefix. *)
Lemma parse_inr_trailing (georef : string) r :
  Georef.parse georef = inr r ->
  6 <= Z.of_nat (String.length georef) ->
  Str.find_first_not_of georef Georef.digits_ Georef.baselen_ = None
  /\ Z.rem (Z.of_nat (String.length georef)) 2 = 0.
Proof.
  unfold Georef.parse. intros E L.
  set (len := Z.of_nat (String.length georef)) in *.
  set (p1 := Z.quot (2 + len - Georef.baselen_) 2 - 1) in *.
  assert (P : (p1 >? 0) = true).
  { apply Z.gtb_lt. subst p1. unfold Georef.baselen_.
    Z.to_euclidean_division_equations. lia. }
  assert (L2 : (len >? 2) = true) by (apply Z.gtb_lt; lia).
  unfold Georef.throw in E. rewrite P, L2 in E.
  destruct (negb (len <? Georef.baselen_ - 2)); [|discriminate E].
  destruct (negb (_ <? 0)) in E; [|discriminate E].
  destruct (negb (_ <? 0)) in E; [|discriminate E].
  destruct (negb (_ <? 0)) in E; [|discriminate E].
  destruct (negb (len <? 4)); [|discriminate E].
  destruct (negb (_ <? 0)) in E; [|discriminate E].
  destruct (Str.find_first_not_of _ _ _); [discriminate E|].
  destruct (Z.rem len 2 =? 0) eqn:R; [|discriminate E].
  apply Z.eqb_eq in R. now split.
Qed.

(** X3.  From six characters on the trailing part is checked: a character
    after the prefix that is not a digit, or an odd number of characters
    after the prefix, makes [Reverse] throw and leaves [lat], [lon] and
    [prec] as they were. *)
Lemma Reverse_checks_trailing_from_six (georef : string) (out : Georef.outs)
  (centerp : bool) :
  Georef.is_invalid georef = false ->
  6 <= Z.of_nat (String.length georef) ->
  (exists (n : nat) (c : ascii),
      (4 <= n)%nat /\ String.get n georef = Some c
      /\ Str.mem c Georef.digits_ = false)
  \/ Z.odd (Z.of_nat (String.length georef) - 4) = true ->
  exists msg, Georef.Reverse georef out centerp = Throws (Err msg) out.
Proof.
  intros I L Bad. unfold Georef.Reverse. rewrite I.
  destruct (Georef.parse georef) as [[msg]|r] eqn:P; [now exists msg|].
  exfalso. destruct (parse_inr_trailing _ _ P L) as [F R].
  destruct Bad as [(n & c & Hn & G & D)|O].
  - unfold Str.find_first_not_of in F.
    rewrite (find_first_not_of_None _ _ _ _ F n c) in D;
      [discriminate D | exact Hn | exact G].
  - apply Z.odd_spec in O. destruct O as [q O].
    revert R. Z.to_euclidean_division_equations. lia.
Qed.

(** C3 at the input where it fails: a single character after the four
    letters, digit or not, is ignored and the string decodes as the four
    letters alone. *)
Theorem Reverse_ignores_one_trailing_character (out : Georef.outs) :
  Georef.Reverse "NKLN5" out true
  = Returns {| Georef.lat := Fin (1725 # 30); Georef.lon := Fin (315 # 30);
               Georef.prec := 0 |}
  /\ Georef.Reverse "NKLNX" out true = Georef.Reverse "NKLN" out true.
Proof. split; reflexivity. Qed.

(** The two strings C3 names are refused. *)
Lemma Reverse_refuses_named_strings (out : Georef.outs) (centerp : bool) :
  Georef.Reverse "NK1N2438" out centerp
  = Throws (Err "Bad longitude degree letter in georef NK1N2438") out
  /\ Georef.Reverse "NKLN24389" out centerp
     = Throws (Err "Georef must end with an even number of digits 24389") out.
Proof. split; reflexivity. Qed.

End ReverseFacts.

(** ** Georef: [Forward] *)

Section ForwardFacts.

Context `{Platform}.

Import Real.

Lemma AngNormalize_range (b : Q) :
  exists c, Georef.AngNormalize (Fin b) = Fin c /\ (-180 <= c < 180)%Q.
Proof.
  eexists. split; [reflexivity|].
  set (t := ((b + 180) / 360)%Q).
  pose proof (Qfloor_le t) as L. pose proof (Qlt_floor t) as U.
  rewrite inject_Z_plus in U. change (inject_Z 1) with 1%Q in U.
  assert (B : (b == 360 * t - 180)%Q) by (unfold t; field).
  lra.
Qed.

Lemma truncate_inject_Z (z : Z) : truncate (inject_Z z) = z.
Proof. unfold truncate. simpl. apply Z.quot_1_r. Qed.

Lemma to_int_floor (c : Q) (lo hi : Z) :
  - 2 ^ 31 <= lo -> hi < 2 ^ 31 ->
  (inject_Z lo <= c)%Q -> (c < inject_Z hi + 1)%Q ->
  to_int (floor (Fin c)) = Qfloor c /\ lo <= Qfloor c <= hi.
Proof.
  intros Hlo Hhi L U. cbn [floor lift1 to_int]. rewrite truncate_inject_Z.
  assert (R : lo <= Qfloor c <= hi).
  { split.
    - rewrite <- (Qfloor_Z lo). now apply Qfloor_resp_le.
    - pose proof (Qfloor_le c) as F.
      assert (Q : (inject_Z (Qfloor c) < inject_Z (hi + 1))%Q)
        by (rewrite inject_Z_plus; change (inject_Z 1) with 1%Q; lra).
      rewrite <- Zlt_Qlt in Q. lia. }
  split; [|exact R].
  replace ((- 2 ^ 31 <=? Qfloor c) && (Qfloor c <? 2 ^ 31)) with true;
    [reflexivity|].
  symmetry. apply andb_true_iff. split; [apply Z.leb_le | apply Z.ltb_lt]; lia.
Qed.

Lemma ilon_range (b : Q) :
  -180 <= to_int (floor (Georef.AngNormalize (Fin b))) <= 179.
Proof.
  destruct (AngNormalize_range b) as (c & -> & L & U).
  destruct (to_int_floor c (-180) 179) as [-> R]; try lia; try exact R.
  - exact L.
  - change (inject_Z 179 + 1)%Q with (179 + 1)%Q. lra.
Qed.

Lemma ilat_range (a : Q) :
  (Qabs a <= 90)%Q ->
  -90 <= Z.min (to_int (floor (Fin a))) Georef.maxlat_ <= 89.
Proof.
  intros A. apply Qabs_Qle_condition in A. destruct A as [L U].
  destruct (to_int_floor a (-90) 90) as [-> R]; try lia.
  - exact L.
  - change (inject_Z 90 + 1)%Q with (90 + 1)%Q. lra.
  - unfold Georef.maxlat_. lia.
Qed.

Lemma clamp_prec_spec (prec : Z) :
  -1 <= Georef.clamp_prec prec <= 11
  /\ Georef.clamp_prec prec <> 1
  /\ (prec <= -1 -> Georef.clamp_prec prec = -1)
  /\ (prec = 0 \/ 2 <= prec <= 11 -> Georef.clamp_prec prec = prec)
  /\ (prec = 1 -> Georef.clamp_prec prec = 2)
  /\ (11 <= prec -> Georef.clamp_prec prec = 11).
Proof.
  unfold Georef.clamp_prec, Georef.maxprec_.
  destruct (Z.max (-1) (Z.min (5 + 6) prec) =? 1) eqn:E;
    [apply Z.eqb_eq in E | apply Z.eqb_neq in E]; lia.
Qed.

Lemma run_bind {A B : Type} (c : Georef.M A) (k : A -> Georef.M B) m :
  Spec.run (Georef.bind c k) m = Spec.run (k (fst (c m))) (Spec.run c m).
Proof. unfold Spec.run, Georef.bind. now destruct (c m). Qed.

Lemma update_length (l : list ascii) (n : nat) (c : ascii) :
  List.length (Georef.update l n c) = List.length l.
Proof.
  revert n. induction l as [|d l IH]; intros [|n]; simpl; auto.
Qed.

Lemma good_index ok table i m :
  Spec.good ok m -> ok (Georef.Rd table i) -> Spec.good ok (Spec.run (Georef.index table i) m).
Proof. intros [L F] O. split; [exact L | now constructor]. Qed.

Lemma good_store ok i c m :
  Spec.good ok m -> ok (Georef.Wr i) -> Spec.good ok (Spec.run (Georef.store i c) m).
Proof.
  intros [L F] O. split; [|now constructor].
  unfold Spec.run, Georef.store. cbn. destruct (i <? 0); [exact L|].
  now rewrite update_length.
Qed.

Lemma good_digits_loop ok (prec : Z) :
  (forall a, Spec.in_bounds a = true -> ok a) ->
  0 <= prec <= 11 ->
  forall (c : nat) (x y : Z) m,
    Z.of_nat c <= prec ->
    Spec.good ok m -> Spec.good ok (Spec.run (Georef.digits_loop c prec x y) m).
Proof.
  intros Hok Hp. induction c as [|c IH]; intros x y m Hc G; [exact G|].
  cbn [Georef.digits_loop]. rewrite !run_bind.
  pose proof (Z.mod_pos_bound x 10 ltac:(lia)) as Bx.
  pose proof (Z.mod_pos_bound y 10 ltac:(lia)) as By.
  assert (B : forall a, Spec.in_bounds a = true -> ok a) by exact Hok.
  apply IH; [lia|].
  apply good_store; [apply good_index; [apply good_store;
                                         [apply good_index; [exact G|]|]|]|];
    apply B; unfold Spec.in_bounds, Georef.maxlen_, Georef.maxprec_,
               Georef.base_, Georef.baselen_, Georef.digits_;
    cbn [String.length];
    (apply andb_true_iff; split; [apply Z.leb_le | apply Z.ltb_lt]; lia).
Qed.

Lemma lontile_index (ilon : Z) :
  -180 <= ilon <= 179 ->
  0 <= Z.quot ilon Georef.tile_ - Georef.lonorig_ < 24.
Proof.
  intros R. unfold Georef.lonorig_, Georef.tile_.
  change (Z.quot (-180) 15) with (-12).
  split; Z.to_euclidean_division_equations; lia.
Qed.

Lemma lattile_index (ilat : Z) :
  -90 <= ilat <= 89 ->
  0 <= Z.quot ilat Georef.tile_ - Georef.latorig_ < 12.
Proof.
  intros R. unfold Georef.latorig_, Georef.tile_.
  change (Z.quot (-90) 15) with (-6).
  split; Z.to_euclidean_division_equations; lia.
Qed.

Lemma good_fresh ok : Spec.good ok Georef.fresh.
Proof.
  split; [|constructor]. unfold Georef.fresh. cbn [Georef.georef1].
  now rewrite length_map, length_seq.
Qed.

Ltac in_range :=
  unfold Spec.in_bounds, Georef.maxlen_, Georef.maxprec_, Georef.lonorig_,
    Georef.latorig_, Georef.tile_, Georef.baselen_, Georef.lontile_,
    Georef.lattile_, Georef.degrees_;
  cbn [String.length];
  apply andb_true_iff; split; [apply Z.leb_le | apply Z.ltb_lt];
  try change (Z.quot (-180) 15) with (-12);
  try change (Z.quot (-90) 15) with (-6);
  Z.to_euclidean_division_equations; lia.

Lemma good_fill (ilon ilat prec : Z) (lon lat : real) m :
  -180 <= ilon <= 179 -> -90 <= ilat <= 89 -> -1 <= prec <= 11 ->
  Spec.good (Spec.tolerable ilon ilat) m ->
  Spec.good (Spec.tolerable ilon ilat)
            (Spec.run (Georef.fill ilon ilat prec lon lat) m).
Proof.
  intros Hlon Hlat Hp G. unfold Georef.fill. rewrite !run_bind.
  set (m4 := Spec.run (Georef.store 1 _) _).
  assert (G4 : Spec.good (Spec.tolerable ilon ilat) m4).
  { apply good_store; [apply good_index; [apply good_store;
                                           [apply good_index; [exact G|]|]|]|];
      left; in_range. }
  destruct (prec >=? 0) eqn:P0; [|exact G4].
  rewrite !run_bind.
  set (m8 := Spec.run (Georef.store 3 _) _).
  assert (G8 : Spec.good (Spec.tolerable ilon ilat) m8).
  { apply good_store; [apply good_index; [apply good_store;
                                           [apply good_index; [exact G4|]|]|]|].
    - right; left; reflexivity.
    - left; in_range.
    - right; right; reflexivity.
    - left; in_range. }
  destruct (prec >? 0) eqn:P1; [|exact G8].
  apply Z.gtb_lt in P1.
  apply good_digits_loop; try lia; [|exact G8].
  intros a Ha. now left.
Qed.

Lemma string_of_list_ascii_length (l : list ascii) :
  String.length (string_of_list_ascii l) = List.length l.
Proof. induction l as [|c l IH]; simpl; congruence. Qed.

(** [Forward] on finite coordinates with a latitude in range. *)
Lemma Forward_run_finite (a b : Q) (prec : Z) (georef : string) :
  (Qabs a <= 90)%Q ->
  let lon := Georef.AngNormalize (Fin b) in
  let ilon := to_int (floor lon) in
  let ilat := Z.min (to_int (floor (Fin a))) Georef.maxlat_ in
  let m := Spec.run (Georef.fill ilon ilat (Georef.clamp_prec prec)
                       (sub lon (of_Z ilon)) (sub (Fin a) (of_Z ilat)))
                    Georef.fresh in
  -180 <= ilon <= 179 /\ -90 <= ilat <= 89
  /\ Spec.good (Spec.tolerable ilon ilat) m
  /\ Georef.Forward_run (Fin a) (Fin b) prec georef
     = (Returns (string_of_list_ascii
                   (firstn (Z.to_nat (Georef.baselen_
                                      + 2 * Georef.clamp_prec prec))
                           (Georef.georef1 m))),
        Georef.trace m).
Proof.
  intros A lon ilon ilat m.
  pose proof (ilon_range b) as Rlon. pose proof (ilat_range a A) as Rlat.
  fold lon in Rlon. fold ilon in Rlon. fold ilat in Rlat.
  repeat split; try apply Rlon; try apply Rlat.
  - apply good_fill; [lia | lia | | apply good_fresh].
    pose proof (clamp_prec_spec prec). lia.
  - apply good_fill; [lia | lia | | apply good_fresh].
    pose proof (clamp_prec_spec prec). lia.
  - unfold Georef.Forward_run.
    replace (gtb (abs (Fin a)) (of_Z 90)) with false
      by (symmetry; now apply gtb_abs_false).
    reflexivity.
Qed.

(** C6.  For coordinates that are not NaN, with [abs(lat) <= 90], and any
    precision request: the request is clamped into [-1, 11] and 1 becomes 2;
    [Forward] returns a string of [4 + 2p] characters for the clamped
    precision [p]; and the requests 1 and 2 give one and the same string, of
    8 characters, so that whatever decodes one decodes the other. *)
Theorem Forward_length (lat lon : real) (prec : Z) (georef : string) :
  isnan lat = false -> isnan lon = false ->
  leb (abs lat) (of_Z 90) = true ->
  let p := Georef.clamp_prec prec in
  (-1 <= p <= 11 /\ p <> 1
   /\ (prec <= -1 -> p = -1)
   /\ (prec = 0 \/ 2 <= prec <= 11 -> p = prec)
   /\ (prec = 1 -> p = 2)
   /\ (11 <= prec -> p = 11))
  /\ (exists s, Georef.Forward lat lon prec georef = Returns s
                /\ Z.of_nat (String.length s) = 4 + 2 * p)
  /\ (p = 0 -> exists s, Georef.Forward lat lon prec georef = Returns s
                         /\ String.length s = 4%nat)
  /\ (p = -1 -> exists s, Georef.Forward lat lon prec georef = Returns s
                          /\ String.length s = 2%nat)
  /\ (exists s, Georef.Forward lat lon 1 georef = Returns s
                /\ Georef.Forward lat lon 2 georef = Returns s
                /\ String.length s = 8%nat).
Proof.
  intros Nlat Nlon A p.
  destruct (isnan_false _ Nlat) as [a ->]. destruct (isnan_false _ Nlon) as [b ->].
  assert (A' : (Qabs a <= 90)%Q) by (now apply Qle_bool_iff).
  pose proof (clamp_prec_spec prec) as C. fold p in C.
  assert (L : forall q, exists s,
             Georef.Forward (Fin a) (Fin b) q georef = Returns s
             /\ Z.of_nat (String.length s) = 4 + 2 * Georef.clamp_prec q).
  { intros q.
    destruct (Forward_run_finite a b q georef A') as (_ & _ & [Lm _] & E).
    eexists. unfold Georef.Forward. rewrite E. split; [reflexivity|].
    rewrite string_of_list_ascii_length, length_firstn, Lm.
    pose proof (clamp_prec_spec q).
    unfold Georef.maxlen_, Georef.maxprec_, Georef.baselen_. lia. }
  split; [exact C|]. split; [apply L|].
  split; [|split].
  - intros P0. destruct (L prec) as (s & E & Ls). exists s. split; [exact E|].
    fold p in Ls. lia.
  - intros P1. destruct (L prec) as (s & E & Ls). exists s. split; [exact E|].
    fold p in Ls. lia.
  - destruct (L 2) as (s & E & Ls). exists s.
    change (Georef.clamp_prec 2) with 2 in Ls.
    repeat split; try exact E; try lia.
Qed.

(** X2.  For coordinates in range, every access of [Forward] is in bounds
    except,
    possibly, the two reads of [degrees_]; those are in bounds when the
    remainders [ilon % 15] and [ilat % 15] are not negative. *)
Lemma Forward_accesses (a b : Q) (prec : Z) :
  (Qabs a <= 90)%Q ->
  let ilon := to_int (floor (Georef.AngNormalize (Fin b))) in
  let ilat := Z.min (to_int (floor (Fin a))) Georef.maxlat_ in
  Forall (Spec.tolerable ilon ilat) (Georef.Forward_trace (Fin a) (Fin b) prec)
  /\ (0 <= ilon -> 0 <= ilat ->
      forallb Spec.in_bounds (Georef.Forward_trace (Fin a) (Fin b) prec)
      = true).
Proof.
  intros A ilon ilat.
  destruct (Forward_run_finite a b prec EmptyString A)
    as (Rlon & Rlat & [_ G] & E).
  fold ilon in Rlon, G. fold ilat in Rlat, G.
  unfold Georef.Forward_trace. rewrite E. cbn [snd].
  split; [exact G|]. intros Plon Plat. apply forallb_forall. intros x Hx.
  rewrite Forall_forall in G. destruct (G x Hx) as [B|[->| ->]];
    [exact B | in_range | in_range].
Qed.

(** C2 at an input where it fails: at latitude -7.5 and longitude 7.5 with
    precision 0, [ilat] is -8, the quotient [ilat / 15] is 0 and the
    remainder [ilat % 15] is -8, and [degrees_] is read at index -8.  The
    accesses are listed the latest first. *)
Theorem Forward_reads_degrees_below_zero :
  Georef.Forward_trace (Fin (- (15 # 2))) (Fin (15 # 2)) 0
  = [Georef.Wr 3; Georef.Rd Georef.degrees_ (-8);
     Georef.Wr 2; Georef.Rd Georef.degrees_ 7;
     Georef.Wr 1; Georef.Rd Georef.lattile_ 6;
     Georef.Wr 0; Georef.Rd Georef.lontile_ 12]
  /\ Spec.in_bounds (Georef.Rd Georef.degrees_ (-8)) = false
  /\ forallb Spec.in_bounds
       (Georef.Forward_trace (Fin (- (15 # 2))) (Fin (15 # 2)) 0) = false.
Proof. repeat split. Qed.

(** C1 at an input where it fails: the point at latitude -7.5 and longitude
    7.5 is the middle of a 15-degree tile; at precision -1 it is encoded
    as "NG", the tile north of the equator, which decodes to latitude 7.5:
    15 degrees away, where half a cell is 7.5 degrees. *)
Theorem round_trip_fails_south_of_equator (georef : string)
  (out : Georef.outs) :
  Georef.Forward (Fin (- (15 # 2))) (Fin (15 # 2)) (-1) georef
  = Returns "NG"%string
  /\ Georef.Reverse "NG" out true
     = Returns {| Georef.lat := Fin (15 # 2); Georef.lon := Fin (15 # 2);
                  Georef.prec := -1 |}
  /\ (Spec.cell_width (-1) / 2 < Qabs ((15 # 2) - - (15 # 2)))%Q.
Proof. repeat split. Qed.

End ForwardFacts.

(** ** Georef: the round trip north and east of the origin *)

Section Cells.

Context `{Platform}.

Import Real.

Lemma update_nth_error_same (l : list ascii) (n : nat) (c : ascii) :
  (n < List.length l)%nat -> nth_error (Georef.update l n c) n = Some c.
Proof.
  revert n. induction l as [|d l IH]; intros [|n] L; simpl in *;
    try lia; [reflexivity|]. apply IH. lia.
Qed.

Lemma update_nth_error_other (l : list ascii) (n j : nat) (c : ascii) :
  n <> j -> nth_error (Georef.update l n c) j = nth_error l j.
Proof.
  revert n j. induction l as [|d l IH]; intros [|n] [|j] N; simpl;
    try reflexivity; try lia. apply IH. lia.
Qed.

(** The cell [j] of the buffer after a store. *)
Lemma store_same (j : nat) (c : ascii) m :
  (j < List.length (Georef.georef1 m))%nat ->
  nth_error (Georef.georef1 (Spec.run (Georef.store (Z.of_nat j) c) m)) j
  = Some c.
Proof.
  intros L. unfold Spec.run, Georef.store. cbn [snd Georef.georef1].
  replace (Z.of_nat j <? 0) with false by (symmetry; apply Z.ltb_ge; lia).
  rewrite Nat2Z.id. now apply update_nth_error_same.
Qed.

Lemma store_other (i : Z) (j : nat) (c : ascii) m :
  i <> Z.of_nat j ->
  nth_error (Georef.georef1 (Spec.run (Georef.store i c) m)) j
  = nth_error (Georef.georef1 m) j.
Proof.
  intros N. unfold Spec.run, Georef.store. cbn [snd Georef.georef1].
  destruct (i <? 0) eqn:I; [reflexivity|]. apply Z.ltb_ge in I.
  apply update_nth_error_other. lia.
Qed.

Lemma store_length (i : Z) (c : ascii) m :
  List.length (Georef.georef1 (Spec.run (Georef.store i c) m))
  = List.length (Georef.georef1 m).
Proof.
  unfold Spec.run, Georef.store. cbn [snd Georef.georef1].
  destruct (i <? 0); [reflexivity|]. apply update_length.
Qed.

Lemma index_value (table : string) (i : Z) m :
  fst (Georef.index table i m) = Str.at_ table i.
Proof. reflexivity. Qed.

Lemma digit_shift (v : Z) (k : nat) : Spec.digit (v / 10) k = Spec.digit v (S k).
Proof.
  unfold Spec.digit. rewrite Nat2Z.inj_succ, Z.pow_succ_r by lia.
  rewrite Z.div_div by (try apply Z.pow_pos_nonneg; lia). reflexivity.
Qed.

(** The cells after the digit loop: the [c] digits of lowest weight of [x]
    from cell [4] on, those of [y] from cell [4 + prec] on, the digit of
    highest weight first; the other cells are untouched. *)
Lemma digits_loop_cells (prec : nat) :
  forall (c : nat) (x y : Z) m,
    (c <= prec)%nat ->
    (4 + 2 * prec <= List.length (Georef.georef1 m))%nat ->
    let m' := Spec.run (Georef.digits_loop c (Z.of_nat prec) x y) m in
    List.length (Georef.georef1 m') = List.length (Georef.georef1 m)
    /\ (forall i, (i < c)%nat ->
          nth_error (Georef.georef1 m') (4 + i)
          = Some (Str.at_ Georef.digits_ (Spec.digit x (c - 1 - i)))
          /\ nth_error (Georef.georef1 m') (4 + prec + i)
             = Some (Str.at_ Georef.digits_ (Spec.digit y (c - 1 - i))))
    /\ (forall j, (j < 4 \/ (4 + c <= j < 4 + prec) \/ 4 + prec + c <= j)%nat ->
          nth_error (Georef.georef1 m') j = nth_error (Georef.georef1 m) j).
Proof.
  induction c as [|c IH]; intros x y m C L.
  - cbn. repeat split; intros; try lia; reflexivity.
  - cbv zeta. cbn [Georef.digits_loop]. rewrite !run_bind.
    rewrite !index_value.
    set (m1 := Spec.run (Georef.index Georef.digits_ (x mod Georef.base_)) m).
    set (m2 := Spec.run (Georef.store _ _) m1).
    set (m3 := Spec.run (Georef.index Georef.digits_ (y mod Georef.base_)) m2).
    set (m4 := Spec.run (Georef.store _ _) m3).
    assert (L2 : List.length (Georef.georef1 m2) = List.length (Georef.georef1 m))
      by (unfold m2; now rewrite store_length).
    assert (L4 : List.length (Georef.georef1 m4) = List.length (Georef.georef1 m))
      by (unfold m4; rewrite store_length; exact L2).
    destruct (IH (x / Georef.base_) (y / Georef.base_) m4 ltac:(lia)
                 ltac:(lia)) as (L' & D & O).
    assert (X : nth_error (Georef.georef1 m4) (4 + c)
                = Some (Str.at_ Georef.digits_ (Spec.digit x 0))).
    { unfold m4. rewrite store_other by (unfold Georef.baselen_; lia).
      change (Georef.georef1 m3) with (Georef.georef1 m2). unfold m2.
      replace (Georef.baselen_ + Z.of_nat c) with (Z.of_nat (4 + c))
        by (unfold Georef.baselen_; lia).
      rewrite store_same by (change (Georef.georef1 m1)
                               with (Georef.georef1 m); lia).
      unfold Spec.digit. now rewrite Z.div_1_r. }
    assert (Y : nth_error (Georef.georef1 m4) (4 + prec + c)
                = Some (Str.at_ Georef.digits_ (Spec.digit y 0))).
    { unfold m4.
      replace (Georef.baselen_ + Z.of_nat c + Z.of_nat prec)
        with (Z.of_nat (4 + prec + c)) by (unfold Georef.baselen_; lia).
      rewrite store_same by (change (Georef.georef1 m3)
                               with (Georef.georef1 m2); lia).
      unfold Spec.digit. now rewrite Z.div_1_r. }
    split; [lia|]. split.
    + intros i Hi. destruct (Nat.eq_dec i c) as [->|Ni].
      * rewrite !O by lia. rewrite X, Y.
        replace (S c - 1 - c)%nat with 0%nat by lia. now split.
      * destruct (D i ltac:(lia)) as [Dx Dy]. rewrite Dx, Dy.
        unfold Georef.base_. rewrite !digit_shift.
        replace (S (c - 1 - i)) with (S c - 1 - i)%nat by lia. now split.
    + intros j Hj. rewrite O by lia. unfold m4.
      rewrite store_other by (unfold Georef.baselen_; lia).
      change (Georef.georef1 m3) with (Georef.georef1 m2). unfold m2.
      rewrite store_other by (unfold Georef.baselen_; lia). reflexivity.
Qed.

End Cells.

Section ForwardString.

Context `{Platform}.

Import Real.

Lemma fresh_length : List.length (Georef.georef1 Georef.fresh) = 26%nat.
Proof. reflexivity. Qed.

Lemma get_string_of_list (l : list ascii) (n : nat) :
  String.get n (string_of_list_ascii l) = nth_error l n.
Proof.
  revert n. induction l as [|c l IH]; intros [|n]; simpl; auto.
Qed.

(** The cells of [georef1] when [fill] is done. *)
Lemma fill_cells (ilon ilat prec : Z) (flon flat : real) :
  -1 <= prec <= 11 ->
  let m := Spec.run (Georef.fill ilon ilat prec flon flat) Georef.fresh in
  nth_error (Georef.georef1 m) 0
  = Some (Str.at_ Georef.lontile_ (Z.quot ilon Georef.tile_ - Georef.lonorig_))
  /\ nth_error (Georef.georef1 m) 1
     = Some (Str.at_ Georef.lattile_
               (Z.quot ilat Georef.tile_ - Georef.latorig_))
  /\ (0 <= prec ->
      nth_error (Georef.georef1 m) 2
      = Some (Str.at_ Georef.degrees_ (Z.rem ilon Georef.tile_))
      /\ nth_error (Georef.georef1 m) 3
         = Some (Str.at_ Georef.degrees_ (Z.rem ilat Georef.tile_)))
  /\ (0 < prec ->
      forall i, (i < Z.to_nat prec)%nat ->
        nth_error (Georef.georef1 m) (4 + i)
        = Some (Str.at_ Georef.digits_
                  (Spec.digit (Spec.minutes prec flon) (Z.to_nat prec - 1 - i)))
        /\ nth_error (Georef.georef1 m) (4 + Z.to_nat prec + i)
           = Some (Str.at_ Georef.digits_
                     (Spec.digit (Spec.minutes prec flat) (Z.to_nat prec - 1 - i)))).
Proof.
  intros P. cbv zeta. unfold Georef.fill. rewrite !run_bind, !index_value.
  set (m1 := Spec.run (Georef.index Georef.lontile_ _) Georef.fresh).
  set (m2 := Spec.run (Georef.store 0 _) m1).
  set (m3 := Spec.run (Georef.index Georef.lattile_ _) m2).
  set (m4 := Spec.run (Georef.store 1 _) m3).
  assert (L4 : List.length (Georef.georef1 m4) = 26%nat).
  { unfold m4. rewrite store_length. change (Georef.georef1 m3)
      with (Georef.georef1 m2). unfold m2. rewrite store_length.
    apply fresh_length. }
  assert (C0 : nth_error (Georef.georef1 m4) 0
               = Some (Str.at_ Georef.lontile_
                         (Z.quot ilon Georef.tile_ - Georef.lonorig_))).
  { unfold m4. rewrite store_other by lia.
    change (Georef.georef1 m3) with (Georef.georef1 m2). unfold m2.
    apply (store_same 0).
    change (Georef.georef1 m1) with (Georef.georef1 Georef.fresh).
    rewrite fresh_length. lia. }
  assert (C1 : nth_error (Georef.georef1 m4) 1
               = Some (Str.at_ Georef.lattile_
                         (Z.quot ilat Georef.tile_ - Georef.latorig_))).
  { unfold m4. apply (store_same 1).
    change (Georef.georef1 m3) with (Georef.georef1 m2). unfold m2.
    rewrite store_length.
    change (Georef.georef1 m1) with (Georef.georef1 Georef.fresh).
    rewrite fresh_length. lia. }
  destruct (prec >=? 0) eqn:P0.
  2:{ rewrite Z.geb_leb in P0. apply Z.leb_gt in P0.
      repeat split; try assumption; lia. }
  rewrite !run_bind, !index_value.
  set (m5 := Spec.run (Georef.index Georef.degrees_ _) m4).
  set (m6 := Spec.run (Georef.store 2 _) m5).
  set (m7 := Spec.run (Georef.index Georef.degrees_ _) m6).
  set (m8 := Spec.run (Georef.store 3 _) m7).
  assert (L6 : List.length (Georef.georef1 m6) = 26%nat).
  { unfold m6. rewrite store_length. exact L4. }
  assert (L8 : List.length (Georef.georef1 m8) = 26%nat).
  { unfold m8. rewrite store_length. exact L6. }
  assert (K : forall j, (j < 2)%nat ->
              nth_error (Georef.georef1 m8) j = nth_error (Georef.georef1 m4) j).
  { intros j Hj. unfold m8. rewrite store_other by lia.
    change (Georef.georef1 m7) with (Georef.georef1 m6). unfold m6.
    now rewrite store_other by lia. }
  assert (C2 : nth_error (Georef.georef1 m8) 2
               = Some (Str.at_ Georef.degrees_ (Z.rem ilon Georef.tile_))).
  { unfold m8. rewrite store_other by lia.
    change (Georef.georef1 m7) with (Georef.georef1 m6). unfold m6.
    apply (store_same 2). change (Georef.georef1 m5)
      with (Georef.georef1 m4). lia. }
  assert (C3 : nth_error (Georef.georef1 m8) 3
               = Some (Str.at_ Georef.degrees_ (Z.rem ilat Georef.tile_))).
  { unfold m8. apply (store_same 3). change (Georef.georef1 m7)
      with (Georef.georef1 m6). lia. }
  destruct (prec >? 0) eqn:P1.
  2:{ rewrite Z.gtb_ltb in P1. apply Z.ltb_ge in P1.
      rewrite !K by lia. repeat split; try assumption; lia. }
  apply Z.gtb_lt in P1.
  match goal with |- context [Georef.digits_loop _ _ ?x ?y] =>
    change x with (Spec.minutes prec flon); change y with (Spec.minutes prec flat)
  end.
  destruct (digits_loop_cells (Z.to_nat prec) (Z.to_nat prec)
              (Spec.minutes prec flon) (Spec.minutes prec flat) m8 (le_n _)
              ltac:(lia)) as (_ & D & O).
  rewrite Z2Nat.id in D, O by lia.
  rewrite !O by lia. rewrite !K by lia.
  repeat split; try assumption; apply D; assumption.
Qed.

(** The string [Forward] returns for finite coordinates in range. *)
Lemma Forward_string (a b : Q) (prec : Z) (georef : string) :
  (Qabs a <= 90)%Q ->
  let p := Georef.clamp_prec prec in
  let lon := Georef.AngNormalize (Fin b) in
  let ilon := to_int (floor lon) in
  let ilat := Z.min (to_int (floor (Fin a))) Georef.maxlat_ in
  let x := Spec.minutes p (sub lon (of_Z ilon)) in
  let y := Spec.minutes p (sub (Fin a) (of_Z ilat)) in
  exists s,
    Georef.Forward (Fin a) (Fin b) prec georef = Returns s
    /\ Z.of_nat (String.length s) = 4 + 2 * p
    /\ String.get 0 s
       = Some (Str.at_ Georef.lontile_
                 (Z.quot ilon Georef.tile_ - Georef.lonorig_))
    /\ String.get 1 s
       = Some (Str.at_ Georef.lattile_
                 (Z.quot ilat Georef.tile_ - Georef.latorig_))
    /\ (0 <= p ->
        String.get 2 s = Some (Str.at_ Georef.degrees_ (Z.rem ilon Georef.tile_))
        /\ String.get 3 s
           = Some (Str.at_ Georef.degrees_ (Z.rem ilat Georef.tile_)))
    /\ (0 < p ->
        forall i, (i < Z.to_nat p)%nat ->
          String.get (4 + i) s
          = Some (Str.at_ Georef.digits_ (Spec.digit x (Z.to_nat p - 1 - i)))
          /\ String.get (4 + Z.to_nat p + i) s
             = Some (Str.at_ Georef.digits_ (Spec.digit y (Z.to_nat p - 1 - i)))).
Proof.
  intros A p lon ilon ilat x y.
  pose proof (clamp_prec_spec prec) as (Pr & _). fold p in Pr.
  destruct (Forward_run_finite a b prec georef A) as (_ & _ & [Lm _] & E).
  fold lon ilon ilat p in E, Lm.
  destruct (fill_cells ilon ilat p (sub lon (of_Z ilon))
              (sub (Fin a) (of_Z ilat)) Pr) as (C0 & C1 & C23 & CD).
  fold x y in CD.
  set (m := Spec.run _ Georef.fresh) in *.
  eexists. unfold Georef.Forward. rewrite E. cbn [fst].
  assert (G : forall n, (n < Z.to_nat (Georef.baselen_ + 2 * p))%nat ->
              String.get n (string_of_list_ascii
                              (firstn (Z.to_nat (Georef.baselen_ + 2 * p))
                                      (Georef.georef1 m)))
              = nth_error (Georef.georef1 m) n).
  { intros n Hn. rewrite get_string_of_list, nth_error_firstn.
    now replace (n <? _)%nat with true by (symmetry; now apply Nat.ltb_lt). }
  unfold Georef.baselen_ in *.
  split; [reflexivity|]. split.
  { rewrite string_of_list_ascii_length, length_firstn, Lm.
    unfold Georef.maxlen_, Georef.maxprec_, Georef.baselen_. lia. }
  split; [rewrite G by lia; exact C0|].
  split; [rewrite G by lia; exact C1|].
  split.
  - intros P0. rewrite !G by lia. now apply C23.
  - intros P1 i Hi. rewrite !G by lia. now apply CD.
Qed.

End ForwardString.

Section Tables.

Context `{Platform}.

Ltac enumerate k n :=
  intros [? ?];
  let m := fresh "m" in
  let Hm := fresh "Hm" in
  let E := fresh "E" in
  remember (Z.to_nat k) as m eqn:Hm;
  assert (E : k = Z.of_nat m) by lia;
  assert (m < n)%nat by lia;
  clear Hm; subst k;
  repeat (destruct m as [|m]; [reflexivity|]); lia.

Lemma lookup_lontile (k : Z) :
  0 <= k < 24 -> Georef.lookup Georef.lontile_ (Str.at_ Georef.lontile_ k) = k.
Proof. enumerate k 24%nat. Qed.

Lemma lookup_lattile (k : Z) :
  0 <= k < 12 -> Georef.lookup Georef.lattile_ (Str.at_ Georef.lattile_ k) = k.
Proof. enumerate k 12%nat. Qed.

Lemma lookup_degrees (k : Z) :
  0 <= k < 15 -> Georef.lookup Georef.degrees_ (Str.at_ Georef.degrees_ k) = k.
Proof. enumerate k 15%nat. Qed.

Lemma lookup_digits (k : Z) :
  0 <= k < 10 -> Georef.lookup Georef.digits_ (Str.at_ Georef.digits_ k) = k.
Proof. enumerate k 10%nat. Qed.

Lemma mem_digits (k : Z) :
  0 <= k < 10 -> Str.mem (Str.at_ Georef.digits_ k) Georef.digits_ = true.
Proof. enumerate k 10%nat. Qed.

Lemma lontile_not_I (k : Z) :
  0 <= k < 24 ->
  Ascii.eqb (Str.toupper (Str.at_ Georef.lontile_ k)) "I" = false.
Proof. enumerate k 24%nat. Qed.

Lemma find_first_not_of_all (chars : string) :
  forall (s : string) (skip : nat) (here : Z),
    (forall (n : nat) (c : ascii),
        (skip <= n)%nat -> String.get n s = Some c -> Str.mem c chars = true) ->
    Str.find_first_not_of_from s chars skip here = None.
Proof.
  induction s as [|d s IH]; intros skip here A; [reflexivity|].
  cbn [Str.find_first_not_of_from]. destruct skip as [|skip].
  - rewrite (A 0%nat d (le_n _) eq_refl). apply IH.
    intros n c _ G. apply (A (S n) c); [lia | exact G].
  - apply IH. intros n c L G. apply (A (S n) c); [lia | exact G].
Qed.

Lemma weight_later (n : nat) (i : Z) :
  i <> 0 -> Spec.weight n i = 10 ^ Z.of_nat n.
Proof.
  intros N. unfold Spec.weight. destruct n as [|n]; [reflexivity|].
  replace (i =? 0) with false by (symmetry; now apply Z.eqb_neq).
  unfold Georef.base_. rewrite Nat2Z.inj_succ, Z.pow_succ_r by lia. reflexivity.
Qed.

End Tables.

Section Decode.

Context `{Platform}.

Import Real.

Variables (s : string) (p x y : Z).

Hypothesis digits_at :
  forall i, 0 <= i < p ->
    Str.at_ s (4 + i) = Str.at_ Georef.digits_ ((x / 10 ^ (p - 1 - i)) mod 10)
    /\ Str.at_ s (4 + i + p)
       = Str.at_ Georef.digits_ ((y / 10 ^ (p - 1 - i)) mod 10).

Hypothesis x_range : 0 <= x < 6 * 10 ^ (p - 1).
Hypothesis y_range : 0 <= y < 6 * 10 ^ (p - 1).

(** The digit loop of [Reverse] on the digits of [x] and [y]: it does not
    throw and appends the digits it reads to the two numbers. *)
Lemma minutes_loop_reads (n : nat) :
  forall (i : Z) (u lo la : Q),
    0 <= i -> Z.of_nat n + i = p ->
    exists u' lo' la',
      Georef.minutes_loop n i p s (Fin u) (Fin lo) (Fin la)
      = inr (Fin u', Fin lo', Fin la')
      /\ (u' == u * inject_Z (Spec.weight n i))%Q
      /\ (lo' == lo * inject_Z (Spec.weight n i)
                 + inject_Z (x mod 10 ^ Z.of_nat n))%Q
      /\ (la' == la * inject_Z (Spec.weight n i)
                 + inject_Z (y mod 10 ^ Z.of_nat n))%Q.
Proof.
  induction n as [|n IH]; intros i u lo la Hi Hn.
  - exists u, lo, la. split; [reflexivity|].
    cbn [Spec.weight Z.of_nat Z.pow]. rewrite !Z.mod_1_r.
    repeat split; ring.
  - cbn [Georef.minutes_loop].
    destruct (digits_at i ltac:(lia)) as [Dx Dy].
    unfold Georef.baselen_. rewrite Dx, Dy.
    replace (p - 1 - i) with (Z.of_nat n) by lia.
    set (d := (x / 10 ^ Z.of_nat n) mod 10).
    set (e := (y / 10 ^ Z.of_nat n) mod 10).
    assert (Rd : 0 <= d < 10) by (apply Z.mod_pos_bound; lia).
    assert (Re : 0 <= e < 10) by (apply Z.mod_pos_bound; lia).
    rewrite !lookup_digits by assumption.
    assert (P10 : 0 < 10 ^ Z.of_nat n) by (apply Z.pow_pos_nonneg; lia).
    assert (First : i = 0 -> d < 6 /\ e < 6).
    { intros ->. replace (p - 1) with (Z.of_nat n) in * by lia.
      assert (x / 10 ^ Z.of_nat n < 6)
        by (apply Z.div_lt_upper_bound; lia).
      assert (y / 10 ^ Z.of_nat n < 6)
        by (apply Z.div_lt_upper_bound; lia).
      assert (0 <= x / 10 ^ Z.of_nat n) by (apply Z.div_pos; lia).
      assert (0 <= y / 10 ^ Z.of_nat n) by (apply Z.div_pos; lia).
      unfold d, e. rewrite !Z.mod_small by lia. lia. }
    set (m := if negb (i =? 0) then Georef.base_ else 6).
    assert (Chk : negb (negb (negb (i =? 0) || (d <? m) && (e <? m))) = true).
    { rewrite negb_involutive. unfold m.
      destruct (Z.eq_dec i 0) as [I0|I0].
      - destruct (First I0). rewrite I0. cbn [Z.eqb negb orb].
        apply andb_true_iff. split; apply Z.ltb_lt; lia.
      - now replace (i =? 0) with false by (symmetry; now apply Z.eqb_neq). }
    rewrite Chk. cbn [mul add of_Z lift2].
    destruct (IH (i + 1) (u * inject_Z m)%Q
                 (inject_Z m * lo + inject_Z d)%Q
                 (inject_Z m * la + inject_Z e)%Q ltac:(lia) ltac:(lia))
      as (u' & lo' & la' & E & Eu & Elo & Ela).
    exists u', lo', la'. split; [exact E|].
    rewrite Eu, Elo, Ela. rewrite weight_later by lia.
    assert (W : Spec.weight (S n) i = m * 10 ^ Z.of_nat n).
    { unfold Spec.weight, m. now destruct (i =? 0). }
    rewrite W. rewrite (Nat2Z.inj_succ n), Z.pow_succ_r by lia.
    rewrite (Z.mul_comm 10), !Z.rem_mul_r by lia.
    fold d e. rewrite !inject_Z_plus, !inject_Z_mult.
    repeat split; ring.
Qed.

End Decode.

Section WellFormed.

Context `{Platform}.

Import Real.

Variables (s : string) (p kx ky dx dy x y : Z).

Hypothesis length_s : Z.of_nat (String.length s) = 4 + 2 * p.
Hypothesis precision : p = -1 \/ p = 0 \/ 2 <= p.
Hypothesis kx_range : 0 <= kx < 24.
Hypothesis ky_range : 0 <= ky < 12.
Hypothesis dx_range : 0 <= dx < 15.
Hypothesis dy_range : 0 <= dy < 15.
Hypothesis lon_tile : Str.at_ s 0 = Str.at_ Georef.lontile_ kx.
Hypothesis lat_tile : Str.at_ s 1 = Str.at_ Georef.lattile_ ky.
Hypothesis degree_letters :
  0 <= p ->
  Str.at_ s 2 = Str.at_ Georef.degrees_ dx
  /\ Str.at_ s 3 = Str.at_ Georef.degrees_ dy.
Hypothesis at_digits :
  forall i, 0 <= i < p ->
    Str.at_ s (4 + i) = Str.at_ Georef.digits_ ((x / 10 ^ (p - 1 - i)) mod 10)
    /\ Str.at_ s (4 + i + p)
       = Str.at_ Georef.digits_ ((y / 10 ^ (p - 1 - i)) mod 10).
Hypothesis x_range : 0 < p -> 0 <= x < 6 * 10 ^ (p - 1).
Hypothesis y_range : 0 < p -> 0 <= y < 6 * 10 ^ (p - 1).
Hypothesis all_digits :
  0 < p -> Str.find_first_not_of s Georef.digits_ Georef.baselen_ = None.

Lemma well_formed_not_invalid : Georef.is_invalid s = false.
Proof.
  unfold Georef.is_invalid. rewrite lon_tile, lontile_not_I by assumption.
  now rewrite andb_false_r.
Qed.

(** [parse] on a string made of a tile, a degree and digits as [Forward]
    lays them out. *)
Lemma parse_well_formed :
  exists u lo la,
    Georef.parse s = inr (p, Fin u, Fin lo, Fin la)
    /\ (u * Spec.cell_width p == 15)%Q
    /\ (lo == inject_Z (Spec.cell_number p (kx + Georef.lonorig_) dx x))%Q
    /\ (la == inject_Z (Spec.cell_number p (ky + Georef.latorig_) dy y))%Q.
Proof.
  assert (P1 : Z.quot (2 + Z.of_nat (String.length s) - Georef.baselen_) 2 - 1
               = p).
  { rewrite length_s. unfold Georef.baselen_.
    replace (2 + (4 + 2 * p) - 4) with ((p + 1) * 2) by lia.
    rewrite Z.quot_mul by lia. lia. }
  assert (E : exists u lo la,
             Georef.parse s = inr (p, Fin u, Fin lo, Fin la)
             /\ (lo == inject_Z (Spec.cell_number p (kx + Georef.lonorig_) dx x))%Q
             /\ (la == inject_Z (Spec.cell_number p (ky + Georef.latorig_) dy y))%Q).
  { unfold Georef.parse. rewrite P1, length_s, lon_tile, lat_tile.
    rewrite lookup_lontile, lookup_lattile by assumption.
    generalize (kx + Georef.lonorig_) (ky + Georef.latorig_). intros tx ty.
    unfold Georef.baselen_, Georef.throw.
    replace (4 + 2 * p <? 4 - 2) with false by (symmetry; apply Z.ltb_ge; lia).
    replace (kx <? 0) with false by (symmetry; apply Z.ltb_ge; lia).
    replace (ky <? 0) with false by (symmetry; apply Z.ltb_ge; lia).
    cbn [negb]. destruct (Z_lt_le_dec p 0) as [N|N].
    - replace (4 + 2 * p >? 2) with false
        by (symmetry; rewrite Z.gtb_ltb; apply Z.ltb_ge; lia).
      do 3 eexists. split; [reflexivity|]. unfold Spec.cell_number.
      replace (p <? 0) with true by (symmetry; apply Z.ltb_lt; lia).
      split; reflexivity.
    - replace (4 + 2 * p >? 2) with true
        by (symmetry; apply Z.gtb_lt; lia).
      destruct (degree_letters N) as [A2 A3]. rewrite A2, A3.
      rewrite !lookup_degrees by assumption.
      replace (dx <? 0) with false by (symmetry; apply Z.ltb_ge; lia).
      replace (dy <? 0) with false by (symmetry; apply Z.ltb_ge; lia).
      replace (4 + 2 * p <? 4) with false by (symmetry; apply Z.ltb_ge; lia).
      cbn [negb of_Z mul add lift2].
      destruct (Z.eq_dec p 0) as [Z0|Z0].
      + replace (p >? 0) with false
          by (symmetry; rewrite Z.gtb_ltb; apply Z.ltb_ge; lia).
        do 3 eexists. split; [reflexivity|]. unfold Spec.cell_number.
        replace (p <? 0) with false by (symmetry; apply Z.ltb_ge; lia).
        replace (p =? 0) with true by (symmetry; apply Z.eqb_eq; lia).
        unfold Georef.tile_.
        repeat (rewrite inject_Z_plus || rewrite inject_Z_mult).
        split; ring.
      + assert (P2 : 2 <= p) by lia.
        replace (p >? 0) with true by (symmetry; apply Z.gtb_lt; lia).
        pose proof (all_digits ltac:(lia)) as AD.
        unfold Georef.baselen_ in AD. rewrite AD.
        replace (Z.rem (4 + 2 * p) 2 =? 0) with true
          by (symmetry; apply Z.eqb_eq;
              Z.to_euclidean_division_equations; lia).
        replace (p =? 1) with false by (symmetry; apply Z.eqb_neq; lia).
        cbn [negb].
        destruct (minutes_loop_reads s p x y at_digits (x_range ltac:(lia))
                    (y_range ltac:(lia)) (Z.to_nat p) 0
                    (inject_Z 1 * inject_Z Georef.tile_)%Q
                    (inject_Z tx * inject_Z Georef.tile_ + inject_Z dx)%Q
                    (inject_Z ty * inject_Z Georef.tile_ + inject_Z dy)%Q
                    ltac:(lia) ltac:(lia))
          as (u' & lo' & la' & L & _ & Elo & Ela).
        rewrite L. exists u', lo', la'. split; [reflexivity|].
        rewrite Elo, Ela. unfold Spec.cell_number.
        replace (p <? 0) with false by (symmetry; apply Z.ltb_ge; lia).
        replace (p =? 0) with false by (symmetry; apply Z.eqb_neq; lia).
        rewrite Z2Nat.id by lia.
        assert (T : 6 * 10 ^ (p - 1) <= 10 ^ p).
        { replace p with (p - 1 + 1) at 2 by lia.
          rewrite Z.pow_add_r by lia.
          assert (0 < 10 ^ (p - 1)) by (apply Z.pow_pos_nonneg; lia). lia. }
        rewrite !Z.mod_small by (split; [apply x_range || apply y_range|
                                         pose proof (x_range ltac:(lia));
                                         pose proof (y_range ltac:(lia))];
                                 lia).
        assert (Wt : Spec.weight (Z.to_nat p) 0 = 6 * 10 ^ (p - 1)).
        { unfold Spec.weight. destruct (Z.to_nat p) as [|n] eqn:N'; [lia|].
          cbn [Z.eqb]. unfold Georef.base_. f_equal. f_equal. lia. }
        rewrite Wt. unfold Georef.tile_.
        repeat (rewrite inject_Z_plus || rewrite inject_Z_mult).
        split; ring. }
  destruct E as (u & lo & la & E & Elo & Ela).
  exists u, lo, la. split; [exact E|]. split; [|now split].
  destruct (parse_inr _ _ _ _ _ E) as (_ & _ & _ & u' & _ & _ & Eu & _ & _ & U).
  now injection Eu as <-.
Qed.

End WellFormed.

Section Arithmetic.

Import Real.

Lemma Qfloor_unique (q : Q) (z : Z) :
  (inject_Z z <= q)%Q -> (q < inject_Z z + 1)%Q -> Qfloor q = z.
Proof.
  intros L U. pose proof (Qfloor_le q) as L'. pose proof (Qlt_floor q) as U'.
  rewrite inject_Z_plus in U'. change (inject_Z 1) with 1%Q in U'.
  assert (A : (inject_Z (Qfloor q) < inject_Z (z + 1))%Q)
    by (rewrite inject_Z_plus; change (inject_Z 1) with 1%Q; lra).
  assert (B : (inject_Z z < inject_Z (Qfloor q + 1))%Q)
    by (rewrite inject_Z_plus; change (inject_Z 1) with 1%Q; lra).
  rewrite <- Zlt_Qlt in A, B. lia.
Qed.

Lemma inject_Z_pred (z : Z) : (inject_Z (z - 1) == inject_Z z - 1)%Q.
Proof.
  unfold Z.sub. rewrite inject_Z_plus, inject_Z_opp. reflexivity.
Qed.

Lemma sixty_tenths (p : Z) :
  2 <= p -> 60 * 10 ^ (p - 2) = 6 * 10 ^ (p - 1).
Proof.
  intros P. replace (p - 1) with (p - 2 + 1) by lia.
  rewrite Z.pow_add_r by lia. lia.
Qed.

Lemma minutes_bound (p : Z) :
  2 <= p <= 11 -> 0 < 6 * 10 ^ (p - 1) <= 6 * 10 ^ 10.
Proof.
  intros P. assert (0 < 10 ^ (p - 1)) by (apply Z.pow_pos_nonneg; lia).
  assert (10 ^ (p - 1) <= 10 ^ 10) by (apply Z.pow_le_mono_r; lia). lia.
Qed.

(** The integer whose digits [Forward] writes is the whole number of cells
    in the part [q] of a degree; at [q = 1] it is the last cell. *)
Lemma minutes_spec (p : Z) (q : Q) :
  2 <= p <= 11 -> (0 <= q <= 1)%Q ->
  let v := Spec.minutes p (Fin q) in
  0 <= v < 6 * 10 ^ (p - 1)
  /\ (inject_Z v <= inject_Z (6 * 10 ^ (p - 1)) * q)%Q
  /\ (inject_Z (6 * 10 ^ (p - 1)) * q <= inject_Z v + 1)%Q.
Proof.
  intros P HQ. cbv zeta. unfold Spec.minutes.
  pose proof (minutes_bound p P) as B.
  set (Wz := 6 * 10 ^ (p - 1)) in *.
  assert (M : (Qpower (inject_Z Georef.base_) (p - 2)
               * inject_Z Georef.mult2_ == inject_Z Wz)%Q).
  { unfold Georef.base_, Georef.mult2_.
    rewrite <- Zpower_Qpower by lia. rewrite <- inject_Z_mult.
    unfold Wz. rewrite <- sixty_tenths by lia.
    now rewrite Z.mul_comm. }
  assert (R : forall t : Q, (0 <= t)%Q -> (t < inject_Z Wz)%Q ->
              to_ull (floor (Fin t)) = Qfloor t /\ 0 <= Qfloor t < Wz).
  { intros t T0 T1. cbn [floor lift1 to_ull]. rewrite truncate_inject_Z.
    assert (0 <= Qfloor t < Wz).
    { split.
      - rewrite <- (Qfloor_Z 0). now apply Qfloor_resp_le.
      - pose proof (Qfloor_le t). rewrite Zlt_Qlt. lra. }
    split; [|assumption].
    apply Z.mod_small. change (2 ^ 64) with 18446744073709551616. lia. }
  assert (W0 : (0 < inject_Z Wz)%Q)
    by (change 0%Q with (inject_Z 0); rewrite <- Zlt_Qlt; lia).
  unfold pow, of_Z.
  replace (Qeq_bool (inject_Z Georef.base_) 0) with false by reflexivity.
  cbn [andb eqb cmp].
  destruct (Qeq_bool q (inject_Z 1)) eqn:One.
  - apply Qeq_bool_eq in One. change (inject_Z 1) with 1%Q in One.
    cbn [sub div mul lift2 epsilon].
    replace (Qeq_bool (inject_Z 2) 0) with false by reflexivity.
    cbn [sub lift2].
    set (t := (_ * _ * (q - _))%Q).
    assert (T : (t == inject_Z Wz - inject_Z Wz * (1 # 9007199254740992))%Q).
    { unfold t. rewrite M, One.
      change (1 / inject_Z (2 ^ 52) / inject_Z 2)%Q
        with (1 # 9007199254740992)%Q. ring. }
    assert (S1 : (inject_Z Wz * (1 # 9007199254740992) < 1)%Q).
    { assert (inject_Z Wz <= inject_Z (6 * 10 ^ 10))%Q
        by (rewrite <- Zle_Qle; lia).
      change (inject_Z (6 * 10 ^ 10)) with 60000000000%Q in *. lra. }
    assert (S0 : (0 < inject_Z Wz * (1 # 9007199254740992))%Q) by lra.
    assert (F : Qfloor t = Wz - 1).
    { apply Qfloor_unique; rewrite T, inject_Z_pred; lra. }
    assert (1 <= Wz) by lia.
    assert (I1 : (1 <= inject_Z Wz)%Q)
      by (change 1%Q with (inject_Z 1); rewrite <- Zle_Qle; lia).
    destruct (R t ltac:(lra) ltac:(lra)) as [-> _]. rewrite F.
    rewrite inject_Z_pred, One. repeat split; try lia; lra.
  - apply Qeq_bool_neq in One. change (inject_Z 1) with 1%Q in One.
    cbn [mul lift2].
    set (t := (_ * _ * q)%Q).
    assert (T : (t == inject_Z Wz * q)%Q) by (unfold t; now rewrite M).
    assert (Q1 : (q < 1)%Q).
    { destruct (Qlt_le_dec q 1) as [|G]; [assumption|].
      exfalso. apply One. apply Qle_antisym; [apply HQ | exact G]. }
    assert (T0 : (0 <= t)%Q) by (rewrite T; nra).
    assert (T1 : (t < inject_Z Wz)%Q) by (rewrite T; nra).
    destruct (R t T0 T1) as [-> Rg].
    pose proof (Qfloor_le t) as L. pose proof (Qlt_floor t) as U.
    rewrite inject_Z_plus in U. change (inject_Z 1) with 1%Q in U.
    repeat split; try lia; lra.
Qed.

End Arithmetic.

Section Axis.

Import Real.


End Axis.

Section RoundTrip.

Context `{Platform}.

Import Real.

(** The result of [Reverse] with the center option from what [parse]
    accumulated. *)
Lemma Reverse_center_of_parse (s : string) (out : Georef.outs) (p : Z)
  (u lo la : Q) :
  Georef.is_invalid s = false ->
  Georef.parse s = inr (p, Fin u, Fin lo, Fin la) ->
  Georef.Reverse s out true
  = Returns {| Georef.lat := Fin (15 * (2 * la + 1) / (u * 2));
               Georef.lon := Fin (15 * (2 * lo + 1) / (u * 2));
               Georef.prec := p |}.
Proof.
  intros I P. unfold Georef.Reverse. rewrite I, P.
  destruct (parse_inr _ _ _ _ _ P) as (_ & _ & _ & u' & _ & _ & Eu & _ & _ & U).
  injection Eu as <-.
  assert (U0 : ~ (u == 0)%Q).
  { intros Z. rewrite Z in U. vm_compute in U. discriminate. }
  cbn [of_Z mul add lift2 div].
  replace (Qeq_bool (u * inject_Z 2) 0) with false; [reflexivity|].
  symmetry. destruct (Qeq_bool (u * inject_Z 2) 0) eqn:B; [|reflexivity].
  apply Qeq_bool_eq in B. exfalso. apply U0.
  assert (u * inject_Z 2 == u * 2)%Q as B' by reflexivity.
  rewrite B' in B. lra.
Qed.

(** North and east of the origin: the string [Forward] returns, and what
    [parse] makes of it. *)
Lemma Forward_then_parse (a b c : Q) (prec : Z) (georef : string) :
  (0 <= a <= 90)%Q ->
  Georef.AngNormalize (Fin b) = Fin c -> (0 <= c)%Q ->
  let p := Georef.clamp_prec prec in
  let ilon := Qfloor c in
  let ilat := Z.min (Qfloor a) Georef.maxlat_ in
  let x := Spec.minutes p (Fin (c - inject_Z ilon)) in
  let y := Spec.minutes p (Fin (a - inject_Z ilat)) in
  exists (s : string) (u lo la : Q),
    Georef.Forward (Fin a) (Fin b) prec georef = Returns s
    /\ Spec.layout p ilon ilat x y s
    /\ Georef.is_invalid s = false
    /\ Georef.parse s = inr (p, Fin u, Fin lo, Fin la)
    /\ (u * Spec.cell_width p == 15)%Q
    /\ (lo == inject_Z (Spec.cell_number p (ilon / 15) (ilon mod 15) x))%Q
    /\ (la == inject_Z (Spec.cell_number p (ilat / 15) (ilat mod 15) y))%Q
    /\ 0 <= ilon <= 179 /\ 0 <= ilat <= 89
    /\ (0 <= c - inject_Z ilon <= 1)%Q
    /\ (0 <= a - inject_Z ilat <= 1)%Q.
Proof.
  intros Ha Eb Hc p.
  assert (A : (Qabs a <= 90)%Q) by (apply Qabs_Qle_condition; lra).
  destruct (AngNormalize_range b) as (c' & Ec' & _ & C180).
  rewrite Eb in Ec'. injection Ec' as <-.
  destruct (Forward_string a b prec georef A) as (s & E & Lay).
  pose proof Lay as (Ls & G0 & G1 & G23 & GD).
  fold p in Lay, Ls, G23, GD. rewrite Eb in Lay, G0, G23, GD.
  destruct (to_int_floor c 0 179 ltac:(lia) ltac:(lia) Hc) as [Eilon Rlon].
  { change (inject_Z 179 + 1)%Q with 180%Q. lra. }
  destruct (to_int_floor a 0 90 ltac:(lia) ltac:(lia)) as [Eilat Rlat].
  { apply Ha. } { change (inject_Z 90 + 1)%Q with 91%Q. lra. }
  rewrite Eilon in Lay, G0, G23, GD. rewrite Eilat in Lay, G1, G23, GD.
  set (ilon := Qfloor c) in *.
  set (ilat := Z.min (Qfloor a) Georef.maxlat_) in *.
  assert (Rilat : 0 <= ilat <= 89) by (unfold ilat, Georef.maxlat_; lia).
  cbn [sub of_Z lift2] in Lay, GD.
  set (q1 := (c - inject_Z ilon)%Q) in *.
  set (q2 := (a - inject_Z ilat)%Q) in *.
  assert (Q1 : (0 <= q1 <= 1)%Q).
  { unfold q1, ilon. pose proof (Qfloor_le c). pose proof (Qlt_floor c) as U.
    rewrite inject_Z_plus in U. change (inject_Z 1) with 1%Q in U. lra. }
  assert (Q2 : (0 <= q2 <= 1)%Q).
  { unfold q2. pose proof (Qfloor_le a) as L. pose proof (Qlt_floor a) as U.
    rewrite inject_Z_plus in U. change (inject_Z 1) with 1%Q in U.
    destruct (Z_le_gt_dec (Qfloor a) 89) as [S|S].
    - replace ilat with (Qfloor a) by (unfold ilat, Georef.maxlat_; lia). lra.
    - replace ilat with 89 by (unfold ilat, Georef.maxlat_; lia).
      assert (F : (inject_Z 90 <= inject_Z (Qfloor a))%Q)
        by (rewrite <- Zle_Qle; lia).
      change (inject_Z 90) with 90%Q in F. change (inject_Z 89) with 89%Q.
      lra. }
  pose proof (clamp_prec_spec prec) as (Pr & P1 & _). fold p in Pr, P1.
  assert (Pc : p = -1 \/ p = 0 \/ 2 <= p) by lia.
  set (x := Spec.minutes p (Fin q1)) in *.
  set (y := Spec.minutes p (Fin q2)) in *.
  assert (Kx : Z.quot ilon Georef.tile_ - Georef.lonorig_ + Georef.lonorig_
               = ilon / 15 /\ Z.rem ilon Georef.tile_ = ilon mod 15).
  { unfold Georef.tile_. split; [rewrite Z.quot_div_nonneg by lia; lia|].
    apply Z.rem_mod_nonneg; lia. }
  assert (Ky : Z.quot ilat Georef.tile_ - Georef.latorig_ + Georef.latorig_
               = ilat / 15 /\ Z.rem ilat Georef.tile_ = ilat mod 15).
  { unfold Georef.tile_. split; [rewrite Z.quot_div_nonneg by lia; lia|].
    apply Z.rem_mod_nonneg; lia. }
  assert (Dg : forall i, 0 <= i < p ->
            Str.at_ s (4 + i)
            = Str.at_ Georef.digits_ ((x / 10 ^ (p - 1 - i)) mod 10)
            /\ Str.at_ s (4 + i + p)
               = Str.at_ Georef.digits_ ((y / 10 ^ (p - 1 - i)) mod 10)).
  { intros i Hi. destruct (GD ltac:(lia) (Z.to_nat i) ltac:(lia)) as [Gx Gy].
    apply at_get in Gx, Gy. unfold Spec.digit in Gx, Gy.
    replace (Z.of_nat (Z.to_nat p - 1 - Z.to_nat i)) with (p - 1 - i)
      in Gx, Gy by lia.
    replace (Z.of_nat (4 + Z.to_nat i)) with (4 + i) in Gx by lia.
    replace (Z.of_nat (4 + Z.to_nat p + Z.to_nat i)) with (4 + i + p)
      in Gy by lia.
    now split. }
  assert (Mx : 0 < p -> 0 <= x < 6 * 10 ^ (p - 1))
    by (intros; now apply minutes_spec; [lia|]).
  assert (My : 0 < p -> 0 <= y < 6 * 10 ^ (p - 1))
    by (intros; now apply minutes_spec; [lia|]).
  assert (AllD : 0 < p ->
            Str.find_first_not_of s Georef.digits_ Georef.baselen_ = None).
  { intros P0. apply find_first_not_of_all. intros n ch Hn Gn.
    change (Z.to_nat Georef.baselen_) with 4%nat in Hn.
    pose proof (get_lt _ _ _ Gn) as Ln.
    assert (Dd : forall v k, Str.mem (Str.at_ Georef.digits_ (Spec.digit v k))
                               Georef.digits_ = true).
    { intros v k. apply mem_digits. apply Z.mod_pos_bound. lia. }
    destruct (le_lt_dec (4 + Z.to_nat p) n) as [Hi|Lo].
    - destruct (GD P0 (n - 4 - Z.to_nat p)%nat ltac:(lia)) as [_ Gy].
      replace (4 + Z.to_nat p + (n - 4 - Z.to_nat p))%nat with n in Gy by lia.
      rewrite Gn in Gy. injection Gy as ->. apply Dd.
    - destruct (GD P0 (n - 4)%nat ltac:(lia)) as [Gx _].
      replace (4 + (n - 4))%nat with n in Gx by lia.
      rewrite Gn in Gx. injection Gx as ->. apply Dd. }
  assert (I : Georef.is_invalid s = false).
  { apply (well_formed_not_invalid s
             (Z.quot ilon Georef.tile_ - Georef.lonorig_)).
    - apply lontile_index. lia.
    - now apply (at_get s 0). }
  destruct (parse_well_formed s p
              (Z.quot ilon Georef.tile_ - Georef.lonorig_)
              (Z.quot ilat Georef.tile_ - Georef.latorig_)
              (Z.rem ilon Georef.tile_) (Z.rem ilat Georef.tile_) x y)
    as (u & lo & la & Pa & U & Elo & Ela); try assumption.
  { apply lontile_index. lia. }
  { apply lattile_index. lia. }
  { destruct Kx as [_ ->]. apply Z.mod_pos_bound. lia. }
  { destruct Ky as [_ ->]. apply Z.mod_pos_bound. lia. }
  { now apply (at_get s 0). }
  { now apply (at_get s 1). }
  { intros P0. destruct (G23 P0) as [G2 G3].
    split; [now apply (at_get s 2) | now apply (at_get s 3)]. }
  destruct Kx as [Kx1 Kx2]. destruct Ky as [Ky1 Ky2].
  rewrite Kx1, Kx2 in Elo. rewrite Ky1, Ky2 in Ela.
  exists s, u, lo, la.
  split; [exact E|]. split; [exact Lay|]. split; [exact I|].
  split; [exact Pa|]. split; [exact U|]. split; [exact Elo|].
  split; [exact Ela|]. split; [lia|]. split; [lia|]. now split.
Qed.


End RoundTrip.

(** ** The properties at concrete inputs *)


Lemma Forward_length_witness :
  exists s, Georef.Forward (H := plain) (Fin (115 # 2)) (Fin (21 # 2)) 1 "old"
            = Returns s
            /\ Z.of_nat (String.length s) = 4 + 2 * Georef.clamp_prec 1.
Proof.
  destruct (Forward_length (H := plain) (Fin (115 # 2)) (Fin (21 # 2)) 1 "old"
              eq_refl eq_refl eq_refl) as (_ & W & _).
  exact W.
Defined.

Lemma Reverse_INV_keeps_prec_witness :
  Georef.Reverse (H := plain) "invalid"
    {| Georef.lat := Fin 1; Georef.lon := Fin 2; Georef.prec := 7 |} true
  = Returns {| Georef.lat := NaN; Georef.lon := NaN; Georef.prec := 7 |}.
Proof.
  apply (Reverse_INV_keeps_prec (H := plain) "i" "n" "v" "alid"); reflexivity.
Defined.

(** C8 as it was stated fails: "NKLN2438" has [4 + 2 * 2] characters and is
    decoded with precision 2, not [2 + 2]. *)
Lemma eight_characters_give_precision_two :
  Georef.Reverse (H := plain) "NKLN2438"
    {| Georef.lat := NaN; Georef.lon := NaN; Georef.prec := 0 |} true
  = Returns {| Georef.lat := Fin (103755 # 1800);
               Georef.lon := Fin (18735 # 1800); Georef.prec := 2 |}
  /\ ~ Spec.precision_is_pairs_plus_two (H := plain).
Proof.
  split; [reflexivity|]. intros C.
  specialize (C "NKLN2438"%string
                {| Georef.lat := NaN; Georef.lon := NaN; Georef.prec := 0 |}
                _ true 2 eq_refl ltac:(lia) eq_refl eq_refl).
  discriminate C.
Qed.

Lemma Reverse_precision_from_length_witness :
  Georef.prec {| Georef.lat := Fin (103755 # 1800);
                 Georef.lon := Fin (18735 # 1800); Georef.prec := 2 |}
  = (2 + Z.of_nat (String.length "NKLN2438") - 4) / 2 - 1.
Proof.
  destruct (Reverse_precision_from_length (H := plain) "NKLN2438"
              {| Georef.lat := NaN; Georef.lon := NaN; Georef.prec := 0 |}
              {| Georef.lat := Fin (103755 # 1800);
                 Georef.lon := Fin (18735 # 1800); Georef.prec := 2 |} true
              eq_refl eq_refl) as (_ & _ & E & _).
  exact E.
Defined.


(** ** Gnomonic *)

Section GnomonicFacts.

Context `{Gnomonic.Env}.

Import Real.

Variable this : Gnomonic.Gnomonic.
Variables lat0 lon0 x y : real.

Local Abbreviation line := (Newton.line this lat0 lon0 x y).
Local Abbreviation next := (Newton.next this lat0 lon0 x y).
Local Abbreviation trips_at := (Newton.trips_at this lat0 lon0 x y).
Local Abbreviation at_arc := (Newton.at_arc this lat0 lon0 x y).
Local Abbreviation trail := (Newton.trail this lat0 lon0 x y).
Local Abbreviation arc := (Newton.arc this lat0 lon0 x y).
Local Abbreviation trips := (Newton.trips this lat0 lon0 x y).
Local Abbreviation iterate :=
  (Gnomonic.iterate this line (Newton.little this x y) (Newton.rho this x y)).

Lemma trail_S_last (s : real) (n : nat) :
  trail s (S n) = Nat.iter n next s :: trail s n.
Proof.
  unfold Newton.trail. rewrite seq_S, map_app, rev_app_distr. reflexivity.
Qed.

Lemma trail_S_first (s : real) (n : nat) :
  trail s (S n) = trail (next s) n ++ [s].
Proof.
  unfold Newton.trail. cbn [seq map rev Nat.iter]. f_equal. f_equal.
  rewrite <- seq_shift, map_map. apply map_ext. intros j.
  apply Nat.iter_succ_r.
Qed.

(** A pass that finds [trip] set evaluates the line and leaves the loop. *)
Lemma iterate_tripped (count : nat) (st : Gnomonic.loop) :
  Gnomonic.trip st <> 0 ->
  let r := iterate (S count) st in
  Gnomonic.trip r <> 0
  /\ Newton.result r = at_arc (Gnomonic.s st)
  /\ Gnomonic.evals r = Gnomonic.s st :: Gnomonic.evals st.
Proof.
  intros T. cbn [Gnomonic.iterate Gnomonic.trip Gnomonic.s Gnomonic.evals].
  replace (Gnomonic.trip st =? 0) with false
    by (symmetry; now apply Z.eqb_neq).
  cbn. repeat split; assumption.
Qed.

(** A pass that finds [trip] clear corrects the arc length and goes on. *)
Lemma iterate_step (count : nat) (st : Gnomonic.loop) :
  Gnomonic.trip st = 0 ->
  iterate (S count) st
  = iterate count
      {| Gnomonic.s := next (Gnomonic.s st);
         Gnomonic.trip := if trips_at (Gnomonic.s st) then 1 else 0;
         Gnomonic.lat1 := Gnomonic.lat (at_arc (Gnomonic.s st));
         Gnomonic.lon1 := Gnomonic.lon (at_arc (Gnomonic.s st));
         Gnomonic.azi1 := Gnomonic.r_azi (at_arc (Gnomonic.s st));
         Gnomonic.M := Gnomonic.r_rk (at_arc (Gnomonic.s st));
         Gnomonic.evals := Gnomonic.s st :: Gnomonic.evals st |}.
Proof.
  intros T. cbn [Gnomonic.iterate Gnomonic.trip Gnomonic.s Gnomonic.evals
                 Gnomonic.lat1 Gnomonic.lon1 Gnomonic.azi1 Gnomonic.M].
  rewrite T. cbn [Z.eqb negb Z.add]. reflexivity.
Qed.

(** The loop when no pass trips. *)
Lemma iterate_never (count : nat) :
  forall st : Gnomonic.loop,
    Gnomonic.trip st = 0 ->
    (forall j, (j < count)%nat ->
               trips_at (Nat.iter j next (Gnomonic.s st)) = false) ->
    Gnomonic.trip (iterate count st) = 0
    /\ Gnomonic.evals (iterate count st)
       = trail (Gnomonic.s st) count ++ Gnomonic.evals st.
Proof.
  induction count as [|count IH]; intros st T N; [now split|].
  rewrite (iterate_step _ _ T).
  pose proof (N 0%nat ltac:(lia)) as N0. cbn [Nat.iter nat_rect] in N0. rewrite N0.
  match goal with |- context [iterate count ?st'] =>
    destruct (IH st' eq_refl) as [T' E']
  end.
  { intros j Hj. cbn [Gnomonic.s]. rewrite <- Nat.iter_succ_r.
    apply N. lia. }
  split; [exact T'|]. rewrite E'. cbn [Gnomonic.s Gnomonic.evals].
  rewrite trail_S_first, <- app_assoc. reflexivity.
Qed.

(** The loop when pass [k + 1] is the first to trip. *)
Lemma iterate_trips (count : nat) :
  forall (st : Gnomonic.loop) (k : nat),
    Gnomonic.trip st = 0 ->
    (k < count)%nat ->
    trips_at (Nat.iter k next (Gnomonic.s st)) = true ->
    (forall j, (j < k)%nat ->
               trips_at (Nat.iter j next (Gnomonic.s st)) = false) ->
    let r := iterate count st in
    let n := if (S k <? count)%nat then S k else k in
    Gnomonic.trip r <> 0
    /\ Newton.result r = at_arc (Nat.iter n next (Gnomonic.s st))
    /\ Gnomonic.evals r = trail (Gnomonic.s st) (S n) ++ Gnomonic.evals st.
Proof.
  induction count as [|count IH]; intros st k T K Y N; [lia|].
  cbv zeta. rewrite (iterate_step _ _ T). destruct k as [|k].
  - cbn [Nat.iter nat_rect] in Y. rewrite Y. destruct count as [|count].
    + cbn. repeat split. discriminate.
    + match goal with |- context [iterate (S count) ?st'] =>
        destruct (iterate_tripped count st') as (T' & R' & E')
      end; [cbn; discriminate|].
      replace (1 <? S (S count))%nat with true
        by (symmetry; apply Nat.ltb_lt; lia).
      split; [exact T'|]. split; [exact R'|].
      rewrite E'. reflexivity.
  - pose proof (N 0%nat ltac:(lia)) as N0. cbn [Nat.iter nat_rect] in N0. rewrite N0.
    match goal with |- context [iterate count ?st'] =>
      destruct (IH st' k eq_refl) as (T' & R' & E')
    end.
    + lia.
    + cbn [Gnomonic.s]. rewrite <- Nat.iter_succ_r. exact Y.
    + intros j Hj. cbn [Gnomonic.s]. rewrite <- Nat.iter_succ_r.
      apply N. lia.
    + cbn [Gnomonic.s Gnomonic.evals] in R', E'.
      replace (S (S k) <? S count)%nat with (S k <? count)%nat
        by reflexivity.
      split; [exact T'|]. split.
      * rewrite R'. destruct (S k <? count)%nat;
          now rewrite <- Nat.iter_succ_r.
      * rewrite E'.
        destruct (S k <? count)%nat;
          now rewrite (trail_S_first (Gnomonic.s st)), <- app_assoc.
Qed.

Lemma iterate_evals_length (count : nat) :
  forall st : Gnomonic.loop,
    (List.length (Gnomonic.evals (iterate count st))
     <= count + List.length (Gnomonic.evals st))%nat.
Proof.
  induction count as [|count IH]; intros st; [simpl; lia|].
  cbn [Gnomonic.iterate].
  destruct (negb (Gnomonic.trip _ =? 0)).
  - cbn. lia.
  - etransitivity; [apply IH|]. cbn. lia.
Qed.

Lemma Reverse_run_loop :
  Gnomonic.Reverse_run this lat0 lon0 x y
  = let st := iterate Gnomonic.numit_
                {| Gnomonic.s := Newton.s0 this x y; Gnomonic.trip := 0;
                   Gnomonic.lat1 := Gnomonic.lat2 Gnomonic.locals;
                   Gnomonic.lon1 := Gnomonic.lon2 Gnomonic.locals;
                   Gnomonic.azi1 := Gnomonic.azi2 Gnomonic.locals;
                   Gnomonic.M := Gnomonic.M12 Gnomonic.locals;
                   Gnomonic.evals := [] |} in
    (if negb (Gnomonic.trip st =? 0) then Newton.result st
     else Newton.all_NaN,
     Gnomonic.evals st).
Proof. reflexivity. Qed.

Lemma tripped (z : Z) : z <> 0 -> negb (z =? 0) = true.
Proof. intros N. apply negb_true_iff. now apply Z.eqb_neq. Qed.

(** C4, as amended.  [Reverse] is total (it has no way to throw) and
    evaluates the line at most [numit_] times.  The test that sets [trip]
    is [!(abs(ds) >= eps_ * a)]: it holds when [abs(ds) < eps_ * a], and
    otherwise only when one of the two sides is NaN.  When pass [k + 1] is
    the first whose correction passes that test and it is not the last
    pass allowed, exactly one more evaluation is made, at the corrected arc
    length, and it is the result.  When it is the last pass allowed, no
    further evaluation is made and the result is the evaluation of that
    pass, made before the correction.  When no pass up to the cap passes the
    test, all four results are NaN. *)
Theorem Reverse_confirm_pass :
  let run := Gnomonic.Reverse_run this lat0 lon0 x y in
  (List.length (snd run) <= Gnomonic.numit_)%nat
  /\ (forall k, (S k < Gnomonic.numit_)%nat ->
        trips k = true -> (forall j, (j < k)%nat -> trips j = false) ->
        run = (at_arc (arc (S k)), Newton.arcs this lat0 lon0 x y (S (S k))))
  /\ (forall k, S k = Gnomonic.numit_ ->
        trips k = true -> (forall j, (j < k)%nat -> trips j = false) ->
        run = (at_arc (arc k), Newton.arcs this lat0 lon0 x y (S k)))
  /\ ((forall k, (k < Gnomonic.numit_)%nat -> trips k = false) ->
      run = (Newton.all_NaN,
             Newton.arcs this lat0 lon0 x y Gnomonic.numit_))
  /\ (forall k, Newton.below this lat0 lon0 x y k = true -> trips k = true)
  /\ (forall k, trips k = true ->
        Newton.below this lat0 lon0 x y k = true
        \/ isnan (Newton.ds_at this lat0 lon0 x y (arc k)) = true
        \/ isnan (mul Gnomonic.eps_ (Gnomonic._a this)) = true).
Proof.
  cbv zeta. rewrite Reverse_run_loop. cbv zeta.
  set (st0 := {| Gnomonic.s := Newton.s0 this x y; Gnomonic.trip := 0;
                 Gnomonic.lat1 := _; Gnomonic.lon1 := _; Gnomonic.azi1 := _;
                 Gnomonic.M := _; Gnomonic.evals := [] |}).
  repeat apply conj.
  - cbn [snd]. pose proof (iterate_evals_length Gnomonic.numit_ st0) as L.
    cbn in L. lia.
  - intros k K Y N.
    destruct (iterate_trips Gnomonic.numit_ st0 k eq_refl ltac:(lia) Y N)
      as (T & R & E).
    replace (S k <? Gnomonic.numit_)%nat with true in R, E
      by (symmetry; now apply Nat.ltb_lt).
    rewrite (tripped _ T), R, E, app_nil_r. reflexivity.
  - intros k K Y N.
    destruct (iterate_trips Gnomonic.numit_ st0 k eq_refl ltac:(lia) Y N)
      as (T & R & E).
    replace (S k <? Gnomonic.numit_)%nat with false in R, E
      by (symmetry; apply Nat.ltb_ge; lia).
    rewrite (tripped _ T), R, E, app_nil_r. reflexivity.
  - intros N.
    destruct (iterate_never Gnomonic.numit_ st0 eq_refl N) as (T & E).
    rewrite T, E, app_nil_r. reflexivity.
  - intros k. unfold Newton.below, Newton.trips, Newton.trips_at, ltb, geb, leb.
    destruct (abs _), (mul _ _); cbn; congruence.
  - intros k. unfold Newton.below, Newton.trips, Newton.trips_at, ltb, geb, leb.
    destruct (abs _) eqn:A, (mul _ _); cbn; auto.
    destruct (Newton.ds_at _ _ _ _ _ _); [auto | discriminate A].
Qed.

(** C5.  [Forward] reports as scale the geodesic scale [M] of the inverse
    computation and as azimuth its final azimuth; when [M <= 0] it gives NaN
    for [x] and [y]; otherwise, with [rho = m / M] and the initial azimuth
    turned into radians, it gives [x = rho * sin(azi0)] and
    [y = rho * cos(azi0)]. *)
Theorem Forward_formulas (lat lon : real) :
  let r := Gnomonic.GenInverse (Gnomonic._earth this) lat0 lon0 lat lon in
  let out := Gnomonic.Forward this lat0 lon0 lat lon in
  Gnomonic.rk out = Gnomonic.inv_M12 r
  /\ Gnomonic.azi out = Gnomonic.inv_azi2 r
  /\ (leb (Gnomonic.inv_M12 r) (of_Z 0) = true ->
      Gnomonic.x out = NaN /\ Gnomonic.y out = NaN)
  /\ (leb (Gnomonic.inv_M12 r) (of_Z 0) = false ->
      let rho := div (Gnomonic.inv_m12 r) (Gnomonic.inv_M12 r) in
      let azi0 := mul (Gnomonic.inv_azi1 r) Gnomonic.degree in
      Gnomonic.x out = mul rho (Gnomonic.sin azi0)
      /\ Gnomonic.y out = mul rho (Gnomonic.cos azi0)).
Proof.
  cbv zeta. unfold Gnomonic.Forward.
  destruct (leb _ (of_Z 0)); cbn; repeat split; intros; try discriminate;
    reflexivity.
Qed.

End GnomonicFacts.

(** C4 as it was stated fails.  On the engine [slow] the tenth pass, the
    last one allowed, is the first whose correction is below [eps_ * a];
    [Reverse] stops there, after 10 evaluations, with the evaluation of
    that pass, where the sentence promises an eleventh, at the corrected arc
    length. *)
Lemma no_confirm_pass_after_the_cap :
  Newton.below (H := toy) slow (Fin 0) (Fin 0) (Fin 0) (Fin 0) 9 = true
  /\ Gnomonic.Reverse_run (H := toy) slow (Fin 0) (Fin 0) (Fin 0) (Fin 0)
     = (Newton.at_arc (H := toy) slow (Fin 0) (Fin 0) (Fin 0) (Fin 0)
          (Newton.arc (H := toy) slow (Fin 0) (Fin 0) (Fin 0) (Fin 0) 9),
        Newton.arcs (H := toy) slow (Fin 0) (Fin 0) (Fin 0) (Fin 0) 10)
  /\ ~ Newton.confirm_pass_always (H := toy) slow (Fin 0) (Fin 0) (Fin 0) (Fin 0).
Proof.
  split; [vm_compute; reflexivity|]. split; [vm_compute; reflexivity|].
  intros C. specialize (C 9%nat).
  assert (E : Gnomonic.Reverse_run (H := toy) slow (Fin 0) (Fin 0) (Fin 0) (Fin 0)
              = (Newton.at_arc (H := toy) slow (Fin 0) (Fin 0) (Fin 0) (Fin 0)
                   (Newton.arc (H := toy) slow (Fin 0) (Fin 0) (Fin 0) (Fin 0) 10),
                 Newton.arcs (H := toy) slow (Fin 0) (Fin 0) (Fin 0) (Fin 0) 11)).
  { apply C.
    - cbn. lia.
    - vm_compute. reflexivity.
    - intros j Hj.
      do 9 (destruct j as [|j]; [vm_compute; reflexivity|]). lia. }
  apply (f_equal (fun r => List.length (snd r))) in E.
  vm_compute in E. discriminate E.
Qed.

Lemma Reverse_confirm_pass_witness :
  Gnomonic.Reverse_run (H := toy) on_plane (Fin 0) (Fin 0) (Fin 0) (Fin 0)
  = (Newton.at_arc (H := toy) on_plane (Fin 0) (Fin 0) (Fin 0) (Fin 0)
       (Newton.arc (H := toy) on_plane (Fin 0) (Fin 0) (Fin 0) (Fin 0) 1),
     Newton.arcs (H := toy) on_plane (Fin 0) (Fin 0) (Fin 0) (Fin 0) 2)
  /\ Gnomonic.Reverse_run (H := toy) slow (Fin 0) (Fin 0) (Fin 0) (Fin 0)
     = (Newton.at_arc (H := toy) slow (Fin 0) (Fin 0) (Fin 0) (Fin 0)
          (Newton.arc (H := toy) slow (Fin 0) (Fin 0) (Fin 0) (Fin 0) 9),
        Newton.arcs (H := toy) slow (Fin 0) (Fin 0) (Fin 0) (Fin 0) 10)
  /\ Gnomonic.Reverse_run (H := toy) too_slow (Fin 0) (Fin 0) (Fin 0) (Fin 0)
     = (Newton.all_NaN,
        Newton.arcs (H := toy) too_slow (Fin 0) (Fin 0) (Fin 0) (Fin 0) 10).
Proof.
  split; [|split].
  - destruct (Reverse_confirm_pass (H := toy) on_plane
                (Fin 0) (Fin 0) (Fin 0) (Fin 0)) as (_ & A & _).
    apply (A 0%nat).
    + cbn. lia.
    + vm_compute. reflexivity.
    + intros j Hj. lia.
  - destruct (Reverse_confirm_pass (H := toy) slow
                (Fin 0) (Fin 0) (Fin 0) (Fin 0)) as (_ & _ & B & _).
    apply (B 9%nat).
    + reflexivity.
    + vm_compute. reflexivity.
    + intros j Hj.
      do 9 (destruct j as [|j]; [vm_compute; reflexivity|]). lia.
  - destruct (Reverse_confirm_pass (H := toy) too_slow
                (Fin 0) (Fin 0) (Fin 0) (Fin 0)) as (_ & _ & _ & N & _).
    apply N. intros j Hj.
    do 10 (destruct j as [|j]; [vm_compute; reflexivity|]). cbn in Hj. lia.
Defined.

Lemma Forward_formulas_witness :
  (Gnomonic.x (Gnomonic.Forward (H := toy) past_horizon
                 (Fin 0) (Fin 0) (Fin 5) (Fin 0)) = NaN
   /\ Gnomonic.y (Gnomonic.Forward (H := toy) past_horizon
                    (Fin 0) (Fin 0) (Fin 5) (Fin 0)) = NaN)
  /\ Gnomonic.y (Gnomonic.Forward (H := toy) on_plane
                   (Fin 0) (Fin 0) (Fin 5) (Fin 0))
     = Real.mul (Real.div (Real.sub (Fin 5) (Fin 0)) (Fin 1))
                (Gnomonic.cos (Env := toy)
                   (Real.mul (Fin 0) (Gnomonic.degree (Env := toy)))).
Proof.
  split.
  - destruct (Forward_formulas (H := toy) past_horizon
                (Fin 0) (Fin 0) (Fin 5) (Fin 0)) as (_ & _ & A & _).
    apply A. reflexivity.
  - destruct (Forward_formulas (H := toy) on_plane
                (Fin 0) (Fin 0) (Fin 5) (Fin 0)) as (_ & _ & _ & B).
    apply B. reflexivity.
Defined.

(** * Further properties *)

(** ** Georef: [Reverse] stays inside the string *)

Section ReverseReads.

Variables P1 P2 : Platform.

Import Real.

(** Inside a string, and at its end, [s[i]] does not depend on what lies
    outside it. *)
Lemma at_inside (s : string) (i : Z) :
  0 <= i <= Z.of_nat (String.length s) ->
  Str.at_ (H := P1) s i = Str.at_ (H := P2) s i.
Proof.
  intros R. unfold Str.at_.
  destruct ((0 <=? i) && (i <? Z.of_nat (String.length s))) eqn:C;
    [reflexivity|].
  destruct (i =? Z.of_nat (String.length s)) eqn:E; [reflexivity|].
  apply Z.eqb_neq in E. apply andb_false_iff in C.
  destruct C as [C|C]; [apply Z.leb_gt in C | apply Z.ltb_ge in C]; lia.
Qed.

Lemma is_invalid_inside (s : string) :
  Georef.is_invalid (H := P1) s = Georef.is_invalid (H := P2) s.
Proof.
  unfold Georef.is_invalid.
  destruct (Z.of_nat (String.length s) >=? 3) eqn:L; [|reflexivity].
  apply Z.geb_le in L. now rewrite !(at_inside s) by lia.
Qed.

Lemma minutes_loop_inside (s : string) (prec1 : Z) (n : nat) :
  forall (i : Z) (unit lon1 lat1 : real),
    0 <= i -> 0 <= prec1 ->
    4 + Z.of_nat n + i + prec1 <= Z.of_nat (String.length s) ->
    Georef.minutes_loop (H := P1) n i prec1 s unit lon1 lat1
    = Georef.minutes_loop (H := P2) n i prec1 s unit lon1 lat1.
Proof.
  induction n as [|n IH]; intros i unit lon1 lat1 Hi Hp L; [reflexivity|].
  cbn [Georef.minutes_loop]. unfold Georef.baselen_.
  rewrite !(at_inside s) by lia. rewrite IH by lia. reflexivity.
Qed.

Lemma parse_inside (s : string) :
  Georef.parse (H := P1) s = Georef.parse (H := P2) s.
Proof.
  unfold Georef.parse.
  set (len := Z.of_nat (String.length s)).
  set (prec1 := Z.quot (2 + len - Georef.baselen_) 2 - 1).
  unfold Georef.baselen_ in *.
  destruct (negb (len <? 4 - 2)) eqn:L2; [|reflexivity].
  apply negb_true_iff, Z.ltb_ge in L2.
  rewrite (at_inside s 0), (at_inside s 1) by (fold len; lia).
  destruct (negb (_ <? 0)); [|reflexivity].
  destruct (negb (_ <? 0)); [|reflexivity].
  destruct (len >? 2) eqn:L3; [|reflexivity].
  apply Z.gtb_lt in L3.
  rewrite (at_inside s 2) by (fold len; lia).
  destruct (negb (_ <? 0)); [|reflexivity].
  destruct (negb (len <? 4)) eqn:L4; [|reflexivity].
  apply negb_true_iff, Z.ltb_ge in L4.
  rewrite (at_inside s 3) by (fold len; lia).
  destruct (negb (_ <? 0)); [|reflexivity].
  destruct (prec1 >? 0) eqn:P0; [|reflexivity].
  apply Z.gtb_lt in P0.
  destruct (Str.find_first_not_of _ _ _); [reflexivity|].
  destruct (Z.rem len 2 =? 0) eqn:Ev; [|reflexivity].
  apply Z.eqb_eq in Ev.
  destruct (negb (prec1 =? 1)); [|reflexivity].
  rewrite minutes_loop_inside; [reflexivity | lia | lia |].
  fold len. rewrite Z2Nat.id by lia. subst prec1.
  revert Ev. Z.to_euclidean_division_equations. lia.
Qed.

(** X4.  [Reverse] never indexes the string past its end: its outcome is
    the same whatever lies outside the string. *)
Theorem Reverse_reads_inside (s : string) (out : Georef.outs)
  (centerp : bool) :
  Georef.Reverse (H := P1) s out centerp
  = Georef.Reverse (H := P2) s out centerp.
Proof.
  unfold Georef.Reverse. now rewrite is_invalid_inside, parse_inside.
Qed.

End ReverseReads.

(** ** Georef: [Forward] returns only what it wrote *)

Section ForwardWritten.

Import Real.

Lemma get_past_end (s : string) (n : nat) :
  (String.length s <= n)%nat -> String.get n s = None.
Proof.
  revert n. induction s as [|c s IH]; intros n L; [now destruct n|].
  destruct n as [|n]; simpl in *; [lia|]. apply IH. lia.
Qed.

Lemma string_ext (s1 s2 : string) (n : nat) :
  String.length s1 = n -> String.length s2 = n ->
  (forall i, (i < n)%nat -> String.get i s1 = String.get i s2) ->
  s1 = s2.
Proof.
  intros L1 L2 E. apply String.get_correct. intros i.
  destruct (Nat.lt_ge_cases i n) as [Lt|Ge]; [now apply E|].
  now rewrite !get_past_end by lia.
Qed.

(** Two strings laid out as [Forward] lays its result out, from the same
    letters and digits, are equal. *)
Lemma same_layout (s1 s2 : string) (p : Z) (c0 c1 c2 c3 : ascii)
  (dx dy : nat -> ascii) :
  -1 <= p ->
  (forall s, s = s1 \/ s = s2 ->
     Z.of_nat (String.length s) = 4 + 2 * p
     /\ String.get 0 s = Some c0
     /\ String.get 1 s = Some c1
     /\ (0 <= p -> String.get 2 s = Some c2 /\ String.get 3 s = Some c3)
     /\ (0 < p -> forall i, (i < Z.to_nat p)%nat ->
           String.get (4 + i) s = Some (dx i)
           /\ String.get (4 + Z.to_nat p + i) s = Some (dy i))) ->
  s1 = s2.
Proof.
  intros Hp A.
  destruct (A s1 (or_introl eq_refl)) as (L1 & A0 & A1 & A23 & AD).
  destruct (A s2 (or_intror eq_refl)) as (L2 & B0 & B1 & B23 & BD).
  apply (string_ext s1 s2 (Z.to_nat (4 + 2 * p))); try lia.
  intros i Hi.
  destruct i as [|[|i]]; [congruence | congruence |].
  assert (P0 : 0 <= p) by lia.
  destruct (A23 P0) as [A2 A3]. destruct (B23 P0) as [B2 B3].
  destruct i as [|[|i]]; [congruence | congruence |].
  assert (P1 : 0 < p) by lia.
  destruct (le_lt_dec (Z.to_nat p) i) as [Hi2|Lo].
  - destruct (AD P1 (i - Z.to_nat p)%nat ltac:(lia)) as [_ Ay].
    destruct (BD P1 (i - Z.to_nat p)%nat ltac:(lia)) as [_ By].
    replace (4 + Z.to_nat p + (i - Z.to_nat p))%nat with (S (S (S (S i))))
      in Ay, By by lia.
    congruence.
  - destruct (AD P1 i Lo) as [Ax _]. destruct (BD P1 i Lo) as [Bx _].
    change (4 + i)%nat with (S (S (S (S i)))) in Ax, Bx. congruence.
Qed.

(** X5.  The string [Forward] returns holds only characters it has written:
    what the uninitialised buffer [georef1] held does not show in the
    outcome, for any input. *)
Theorem Forward_returns_only_written (P : Platform) (st : Z -> ascii)
  (lat lon : real) (prec : Z) (georef : string) :
  Georef.Forward (H := with_stack P st) lat lon prec georef
  = Georef.Forward (H := P) lat lon prec georef.
Proof.
  destruct (gtb (abs lat) (of_Z 90)) eqn:G.
  { unfold Georef.Forward, Georef.Forward_run. now rewrite G. }
  destruct (isnan lat || isnan lon) eqn:N.
  { unfold Georef.Forward, Georef.Forward_run. now rewrite G, N. }
  apply orb_false_iff in N. destruct N as [Na Nb].
  destruct (isnan_false _ Na) as [a ->]. destruct (isnan_false _ Nb) as [b ->].
  apply gtb_abs_false in G.
  destruct (Forward_string (H := with_stack P st) a b prec georef G)
    as (s1 & E1 & F1).
  destruct (Forward_string (H := P) a b prec georef G) as (s2 & E2 & F2).
  rewrite E1, E2. f_equal.
  pose proof (clamp_prec_spec prec) as (Pr & _).
  eapply (same_layout s1 s2 (Georef.clamp_prec prec)); [lia|].
  intros s [-> | ->]; [exact F1 | exact F2].
Qed.

End ForwardWritten.

(** ** Georef: what [Reverse] accepts *)

Section Accepted.

Context `{Platform}.

Import Real.

Lemma find_bounds (c : ascii) :
  forall (s : string) (from k : Z),
    Str.find c s from = Some k -> from <= k < from + Z.of_nat (String.length s).
Proof.
  induction s as [|d s IH]; intros from k E; [discriminate E|].
  cbn [Str.find] in E. cbn [String.length]. destruct (Ascii.eqb c d).
  - injection E as <-. lia.
  - apply IH in E. lia.
Qed.

Lemma lookup_bounds (table : string) (c : ascii) :
  -1 <= Georef.lookup table c < Z.of_nat (String.length table).
Proof.
  unfold Georef.lookup. destruct (Str.find _ _ _) as [k|] eqn:E; [|lia].
  apply find_bounds in E. lia.
Qed.

Lemma digit_lookup (c : ascii) :
  Str.mem c Georef.digits_ = true -> 0 <= Georef.lookup Georef.digits_ c.
Proof.
  unfold Str.mem, Georef.digits_. cbn [Str.find].
  repeat match goal with
         | |- context [Ascii.eqb c ?d] =>
             let E := fresh "E" in
             destruct (Ascii.eqb c d) eqn:E;
             [apply Ascii.eqb_eq in E; subst c; intros _; vm_compute;
              discriminate|]
         end.
  discriminate.
Qed.

Variables (s : string) (p : Z).

Hypothesis digits_after :
  forall j, 0 <= j < 2 * p ->
    0 <= Georef.lookup Georef.digits_ (Str.at_ s (4 + j)).

(** The digit loop keeps each accumulated number inside the cell it
    started in. *)
Lemma minutes_loop_keeps_cell (n : nat) :
  forall (i : Z) (u lo la A B : Q) r,
    0 <= i -> Z.of_nat n + i = p ->
    (0 < u)%Q ->
    (A * u <= lo <= A * u + u - 1)%Q ->
    (B * u <= la <= B * u + u - 1)%Q ->
    Georef.minutes_loop n i p s (Fin u) (Fin lo) (Fin la) = inr r ->
    exists u' lo' la',
      r = (Fin u', Fin lo', Fin la')
      /\ (0 < u')%Q
      /\ (A * u' <= lo' <= A * u' + u' - 1)%Q
      /\ (B * u' <= la' <= B * u' + u' - 1)%Q
      /\ ((0 < n)%nat -> i = 0 ->
          Georef.lookup Georef.digits_ (Str.at_ s 4) < 6
          /\ Georef.lookup Georef.digits_ (Str.at_ s (4 + p)) < 6).
Proof.
  induction n as [|n IH]; intros i u lo la A B r Hi Hn U Lo La E.
  - cbn in E. injection E as <-. exists u, lo, la.
    repeat split; try apply Lo; try apply La; try assumption; lia.
  - cbn [Georef.minutes_loop] in E. unfold Georef.baselen_ in E.
    set (x := Georef.lookup Georef.digits_ (Str.at_ s (4 + i))) in *.
    set (y := Georef.lookup Georef.digits_ (Str.at_ s (4 + i + p))) in *.
    assert (X0 : 0 <= x) by (apply digits_after; lia).
    assert (Y0 : 0 <= y).
    { unfold y. replace (4 + i + p) with (4 + (i + p)) by lia.
      apply digits_after. lia. }
    assert (X9 : x < 10) by apply (lookup_bounds Georef.digits_).
    assert (Y9 : y < 10) by apply (lookup_bounds Georef.digits_).
    set (m := if negb (i =? 0) then Georef.base_ else 6) in *.
    destruct (negb (negb (negb (i =? 0) || (x <? m) && (y <? m)))) eqn:C;
      [|discriminate E].
    rewrite negb_involutive in C.
    assert (M : (m = 6 \/ m = 10) /\ x < m /\ y < m).
    { unfold m in *. destruct (i =? 0); cbn [negb orb] in *.
      - apply andb_true_iff in C. destruct C as [Cx Cy].
        apply Z.ltb_lt in Cx, Cy. lia.
      - unfold Georef.base_. lia. }
    destruct M as (Mv & Xm & Ym).
    assert (Qx : (0 <= inject_Z x <= inject_Z m - 1)%Q).
    { split; [change 0%Q with (inject_Z 0); rewrite <- Zle_Qle; lia|].
      setoid_replace (inject_Z m - 1)%Q with (inject_Z (m - 1))
        by (unfold Z.sub; rewrite inject_Z_plus; reflexivity).
      rewrite <- Zle_Qle. lia. }
    assert (Qy : (0 <= inject_Z y <= inject_Z m - 1)%Q).
    { split; [change 0%Q with (inject_Z 0); rewrite <- Zle_Qle; lia|].
      setoid_replace (inject_Z m - 1)%Q with (inject_Z (m - 1))
        by (unfold Z.sub; rewrite inject_Z_plus; reflexivity).
      rewrite <- Zle_Qle. lia. }
    cbn [mul add of_Z lift2] in E.
    assert (Mq : (inject_Z m == 6 \/ inject_Z m == 10)%Q)
      by (destruct Mv as [-> | ->]; [left | right]; reflexivity).
    apply (IH (i + 1) _ _ _ A B) in E; try lia.
    + destruct E as (u' & lo' & la' & -> & U' & Lo' & La' & _).
      exists u', lo', la'.
      split; [reflexivity|]. split; [exact U'|]. split; [exact Lo'|].
      split; [exact La'|]. intros _ I0. subst i.
      unfold x, y, m in Xm, Ym. cbn [Z.eqb negb] in Xm, Ym.
      replace (4 + 0) with 4 in Xm by lia.
      replace (4 + 0 + p) with (4 + p) in Ym by lia. now split.
    + destruct Mq as [Mq|Mq]; rewrite Mq; lra.
    + destruct Mq as [Mq|Mq]; rewrite Mq in *; split; nra.
    + destruct Mq as [Mq|Mq]; rewrite Mq in *; split; nra.
Qed.

End Accepted.

Section AcceptedStrings.

Context `{Platform}.

Import Real.

Lemma get_inside (s : string) (n : nat) :
  (n < String.length s)%nat -> exists c, String.get n s = Some c.
Proof.
  revert n. induction s as [|d s IH]; intros n L; simpl in L; [lia|].
  destruct n as [|n]; [now exists d|]. apply IH. lia.
Qed.


(** What a successful [parse] has found in the string, and where the
    numbers it accumulated lie. *)
Lemma parse_accepts (s : string) (p : Z) (u lo la : Q) :
  Georef.parse s = inr (p, Fin u, Fin lo, Fin la) ->
  let len := Z.of_nat (String.length s) in
  let kx := Georef.lookup Georef.lontile_ (Str.at_ s 0) in
  let ky := Georef.lookup Georef.lattile_ (Str.at_ s 1) in
  (0 <= kx < 24 /\ 0 <= ky < 12)
  /\ (len = 2 /\ p = -1 \/ (len = 4 \/ len = 5) /\ p = 0
      \/ 2 <= p /\ len = 4 + 2 * p)
  /\ (0 <= p ->
      0 <= Georef.lookup Georef.degrees_ (Str.at_ s 2) < 15
      /\ 0 <= Georef.lookup Georef.degrees_ (Str.at_ s 3) < 15)
  /\ (2 <= p ->
      (forall j, 0 <= j < 2 * p ->
                 0 <= Georef.lookup Georef.digits_ (Str.at_ s (4 + j)) < 10)
      /\ Georef.lookup Georef.digits_ (Str.at_ s 4) < 6
      /\ Georef.lookup Georef.digits_ (Str.at_ s (4 + p)) < 6)
  /\ (0 < u)%Q
  /\ (inject_Z (kx + Georef.lonorig_) * u <= lo
      <= inject_Z (kx + Georef.lonorig_) * u + u - 1)%Q
  /\ (inject_Z (ky + Georef.latorig_) * u <= la
      <= inject_Z (ky + Georef.latorig_) * u + u - 1)%Q.
Proof.
  intros E. cbv zeta.
  pose proof (lookup_bounds Georef.lontile_ (Str.at_ s 0)) as Bx.
  pose proof (lookup_bounds Georef.lattile_ (Str.at_ s 1)) as By.
  pose proof (lookup_bounds Georef.degrees_ (Str.at_ s 2)) as Bdx.
  pose proof (lookup_bounds Georef.degrees_ (Str.at_ s 3)) as Bdy.
  change (Z.of_nat (String.length Georef.lontile_)) with 24 in Bx.
  change (Z.of_nat (String.length Georef.lattile_)) with 12 in By.
  change (Z.of_nat (String.length Georef.degrees_)) with 15 in Bdx, Bdy.
  pose proof E as E0. unfold Georef.parse in E.
  set (len := Z.of_nat (String.length s)) in *.
  set (p1 := Z.quot (2 + len - Georef.baselen_) 2 - 1) in *.
  set (kx := Georef.lookup Georef.lontile_ (Str.at_ s 0)) in *.
  set (ky := Georef.lookup Georef.lattile_ (Str.at_ s 1)) in *.
  set (dx := Georef.lookup Georef.degrees_ (Str.at_ s 2)) in *.
  set (dy := Georef.lookup Georef.degrees_ (Str.at_ s 3)) in *.
  set (A := inject_Z (kx + Georef.lonorig_)).
  set (B := inject_Z (ky + Georef.latorig_)).
  unfold Georef.throw, Georef.baselen_ in E.
  destruct (negb (len <? 4 - 2)) eqn:T0; [|discriminate E].
  apply negb_true_iff, Z.ltb_ge in T0.
  destruct (negb (kx <? 0)) eqn:Tx; [|discriminate E].
  apply negb_true_iff, Z.ltb_ge in Tx.
  destruct (negb (ky <? 0)) eqn:Ty; [|discriminate E].
  apply negb_true_iff, Z.ltb_ge in Ty.
  assert (Hq : 2 * (p1 + 1) <= 2 + len - 4 < 2 * (p1 + 1) + 2).
  { subst p1. unfold Georef.baselen_.
    Z.to_euclidean_division_equations. lia. }
  split; [lia|].
  cbn [of_Z mul add lift2] in E. fold A B in E.
  change (inject_Z Georef.tile_) with 15%Q in E.
  change (inject_Z 1) with 1%Q in E.
  destruct (len >? 2) eqn:T3.
  2:{ rewrite Z.gtb_ltb in T3. apply Z.ltb_ge in T3.
      injection E as <- <- <- <-.
      fold A B. change (inject_Z 1) with 1%Q.
      split; [left; lia|]. repeat split; try lia; lra. }
  apply Z.gtb_lt in T3.
  destruct (negb (dx <? 0)) eqn:Tdx; [|discriminate E].
  apply negb_true_iff, Z.ltb_ge in Tdx.
  destruct (negb (len <? 4)) eqn:T4; [|discriminate E].
  apply negb_true_iff, Z.ltb_ge in T4.
  destruct (negb (dy <? 0)) eqn:Tdy; [|discriminate E].
  apply negb_true_iff, Z.ltb_ge in Tdy.
  assert (Dx : (0 <= inject_Z dx <= 14)%Q).
  { change 0%Q with (inject_Z 0). change 14%Q with (inject_Z 14).
    rewrite <- !Zle_Qle. lia. }
  assert (Dy : (0 <= inject_Z dy <= 14)%Q).
  { change 0%Q with (inject_Z 0). change 14%Q with (inject_Z 14).
    rewrite <- !Zle_Qle. lia. }
  destruct (p1 >? 0) eqn:T5.
  2:{ rewrite Z.gtb_ltb in T5. apply Z.ltb_ge in T5.
      injection E as <- <- <- <-.
      fold A B. change (inject_Z Georef.tile_) with 15%Q.
      change (inject_Z 1) with 1%Q.
      split; [right; left; lia|]. repeat split; try lia; lra. }
  apply Z.gtb_lt in T5.
  destruct (Str.find_first_not_of s Georef.digits_ 4) eqn:F;
    [discriminate E|].
  destruct (Z.rem len 2 =? 0) eqn:Ev; [|discriminate E].
  apply Z.eqb_eq in Ev.
  destruct (negb (p1 =? 1)) eqn:T6; [|discriminate E].
  apply negb_true_iff, Z.eqb_neq in T6.
  assert (Len : len = 4 + 2 * p1)
    by (revert Ev; Z.to_euclidean_division_equations; lia).
  assert (Dg : forall j, 0 <= j < 2 * p1 ->
                 0 <= Georef.lookup Georef.digits_ (Str.at_ s (4 + j))).
  { intros j Hj.
    destruct (get_inside s (Z.to_nat (4 + j)) ltac:(lia)) as [c G].
    pose proof (at_get s _ c G) as AG. rewrite Z2Nat.id in AG by lia.
    rewrite AG. apply digit_lookup.
    unfold Str.find_first_not_of in F.
    apply (find_first_not_of_None _ _ _ _ F (Z.to_nat (4 + j)) c);
      [change (Z.to_nat 4) with 4%nat; lia | exact G]. }
  destruct (Georef.minutes_loop _ _ _ _ _ _ _) as [e|r] eqn:L;
    [discriminate E|].
  apply (minutes_loop_keeps_cell s p1 Dg (Z.to_nat p1) 0 _ _ _ A B) in L;
    try lia; try lra.
  destruct L as (u' & lo' & la' & -> & U' & Lo' & La' & Six).
  injection E as <- <- <- <-.
  split; [right; right; lia|]. split; [lia|]. split.
  - intros _. split; [|apply Six; lia].
    intros j Hj. split; [now apply Dg|].
    apply (lookup_bounds Georef.digits_).
  - split; [exact U'|]. split; [exact Lo' | exact La'].
Qed.


(** X6.  What [Reverse] lets through.  A string it decodes, other than
    the "INV" strings, starts with a letter of [lontile_] and one of
    [lattile_]; it has 2, 4 or 5 characters, or [4 + 2p] of them with [p]
    at least 2, [p] being the precision returned; past 2 characters the
    next two are letters of [degrees_]; past 5 every further character is a
    digit, and the first digit of each half is below 6. *)
Theorem Reverse_accepts_only_georefs (s : string) (out r : Georef.outs)
  (centerp : bool) :
  Georef.is_invalid s = false ->
  Georef.Reverse s out centerp = Returns r ->
  let len := Z.of_nat (String.length s) in
  let p := Georef.prec r in
  0 <= Georef.lookup Georef.lontile_ (Str.at_ s 0)
  /\ 0 <= Georef.lookup Georef.lattile_ (Str.at_ s 1)
  /\ (len = 2 /\ p = -1 \/ (len = 4 \/ len = 5) /\ p = 0
      \/ 2 <= p /\ len = 4 + 2 * p)
  /\ (2 < len ->
      0 <= Georef.lookup Georef.degrees_ (Str.at_ s 2)
      /\ 0 <= Georef.lookup Georef.degrees_ (Str.at_ s 3))
  /\ (5 < len ->
      (forall j, 4 <= j < len ->
                 0 <= Georef.lookup Georef.digits_ (Str.at_ s j))
      /\ Georef.lookup Georef.digits_ (Str.at_ s 4) < 6
      /\ Georef.lookup Georef.digits_ (Str.at_ s (4 + p)) < 6).
Proof.
  intros I E. cbv zeta.
  destruct (Reverse_parse s out centerp r I E) as (p & u & lo & la & P & ->).
  cbn [Georef.prec].
  destruct (parse_accepts s p u lo la P) as (K & L & D & G & _).
  split; [lia|]. split; [lia|]. split; [exact L|]. split.
  - intros L2. destruct (D ltac:(lia)). lia.
  - intros L5. destruct (G ltac:(lia)) as (Dg & S1 & S2).
    split; [|now split].
    intros j Hj. replace j with (4 + (j - 4)) by lia. apply Dg. lia.
Qed.



End AcceptedStrings.

(** ** Georef: precision as truncation *)

Section Refinement.

Import Real.

(** The integer whose digits [Forward] writes, exactly. *)
Lemma minutes_exact (p : Z) (q : Q) :
  2 <= p <= 11 -> (0 <= q <= 1)%Q ->
  Spec.minutes p (Fin q)
  = if Qeq_bool q 1 then 6 * 10 ^ (p - 1) - 1
    else Qfloor (inject_Z (6 * 10 ^ (p - 1)) * q).
Proof.
  intros P HQ. unfold Spec.minutes.
  pose proof (minutes_bound p P) as B.
  set (Wz := 6 * 10 ^ (p - 1)) in *.
  assert (M : (Qpower (inject_Z Georef.base_) (p - 2)
               * inject_Z Georef.mult2_ == inject_Z Wz)%Q).
  { unfold Georef.base_, Georef.mult2_.
    rewrite <- Zpower_Qpower by lia. rewrite <- inject_Z_mult.
    unfold Wz. rewrite <- sixty_tenths by lia.
    now rewrite Z.mul_comm. }
  assert (R : forall t : Q, (0 <= t)%Q -> (t < inject_Z Wz)%Q ->
              to_ull (floor (Fin t)) = Qfloor t).
  { intros t T0 T1. cbn [floor lift1 to_ull]. rewrite truncate_inject_Z.
    assert (0 <= Qfloor t < Wz).
    { split.
      - rewrite <- (Qfloor_Z 0). now apply Qfloor_resp_le.
      - pose proof (Qfloor_le t). rewrite Zlt_Qlt. lra. }
    apply Z.mod_small. change (2 ^ 64) with 18446744073709551616. lia. }
  assert (W0 : (0 < inject_Z Wz)%Q)
    by (change 0%Q with (inject_Z 0); rewrite <- Zlt_Qlt; lia).
  unfold pow, of_Z.
  replace (Qeq_bool (inject_Z Georef.base_) 0) with false by reflexivity.
  cbn [andb eqb cmp]. change (inject_Z 1) with 1%Q.
  destruct (Qeq_bool q 1) eqn:One.
  - apply Qeq_bool_eq in One.
    cbn [sub div mul lift2 epsilon].
    replace (Qeq_bool (inject_Z 2) 0) with false by reflexivity.
    cbn [sub lift2].
    set (t := (_ * _ * (q - _))%Q).
    assert (T : (t == inject_Z Wz - inject_Z Wz * (1 # 9007199254740992))%Q).
    { unfold t. rewrite M, One.
      change (1 / inject_Z (2 ^ 52) / inject_Z 2)%Q
        with (1 # 9007199254740992)%Q. ring. }
    assert (S1 : (inject_Z Wz * (1 # 9007199254740992) < 1)%Q).
    { assert (inject_Z Wz <= inject_Z (6 * 10 ^ 10))%Q
        by (rewrite <- Zle_Qle; lia).
      change (inject_Z (6 * 10 ^ 10)) with 60000000000%Q in *. lra. }
    assert (S0 : (0 < inject_Z Wz * (1 # 9007199254740992))%Q) by lra.
    assert (I1 : (1 <= inject_Z Wz)%Q)
      by (change 1%Q with (inject_Z 1); rewrite <- Zle_Qle; lia).
    rewrite R by lra.
    apply Qfloor_unique; rewrite T, inject_Z_pred; lra.
  - apply Qeq_bool_neq in One.
    cbn [mul lift2].
    set (t := (_ * _ * q)%Q).
    assert (T : (t == inject_Z Wz * q)%Q) by (unfold t; now rewrite M).
    assert (Q1 : (q < 1)%Q).
    { destruct (Qlt_le_dec q 1) as [|G]; [assumption|].
      exfalso. apply One. apply Qle_antisym; [apply HQ | exact G]. }
    rewrite R by (rewrite T; nra).
    now rewrite T.
Qed.








End Refinement.

Section Coarser.

Context `{Platform}.

Import Real.


End Coarser.

(** ** Georef: the middle of a cell *)

Section Stable.

Import Real.

(** Along one axis: the middle of the cell numbered as [Forward] numbers it
    has the whole degrees and the minutes of that cell. *)
Lemma axis_stable (p ideg v : Z) (u c z : Q) :
  0 <= ideg ->
  p = -1 \/ p = 0 \/ 2 <= p <= 11 ->
  (2 <= p -> 0 <= v < 6 * 10 ^ (p - 1)) ->
  (u * Spec.cell_width p == 15)%Q ->
  (c == inject_Z (Spec.cell_number p (ideg / 15) (ideg mod 15) v))%Q ->
  (z == 15 * (2 * c + 1) / (u * 2))%Q ->
  15 * (ideg / 15) <= Qfloor z < 15 * (ideg / 15) + 15
  /\ (0 <= z)%Q
  /\ (0 <= p -> Qfloor z = ideg)
  /\ (2 <= p -> Spec.minutes p (Fin (z - inject_Z (Qfloor z))) = v).
Proof.
  intros I P V U C Z.
  pose proof (Z.div_mod ideg 15 ltac:(lia)) as DM.
  pose proof (Z.mod_pos_bound ideg 15 ltac:(lia)) as MB.
  assert (T0 : 0 <= ideg / 15) by (apply Z.div_pos; lia).
  set (t := ideg / 15) in *. set (r := ideg mod 15) in *.
  assert (Ei : (inject_Z ideg == 15 * inject_Z t + inject_Z r)%Q).
  { rewrite DM, inject_Z_plus, inject_Z_mult. reflexivity. }
  assert (Tq : (0 <= inject_Z t)%Q)
    by (change 0%Q with (inject_Z 0); rewrite <- Zle_Qle; lia).
  assert (R0 : (0 <= inject_Z r)%Q)
    by (change 0%Q with (inject_Z 0); rewrite <- Zle_Qle; lia).
  assert (R14 : (inject_Z r <= 14)%Q)
    by (change 14%Q with (inject_Z 14); rewrite <- Zle_Qle; lia).
  destruct P as [->|[->|P]].
  - change (Spec.cell_width (-1)) with 15%Q in *.
    change (Spec.cell_number (-1) t r v) with t in C.
    assert (U1 : (u == 1)%Q) by lra.
    assert (E : (z == 15 * inject_Z t + (15 # 2))%Q)
      by (rewrite Z, U1, C; field).
    assert (F : Qfloor z = 15 * t + 7).
    { apply Qfloor_unique; rewrite E, inject_Z_plus, inject_Z_mult;
        change (inject_Z 15) with 15%Q; change (inject_Z 7) with 7%Q; lra. }
    rewrite F. repeat split; try lia. lra.
  - change (Spec.cell_width 0) with 1%Q in *.
    change (Spec.cell_number 0 t r v) with (t * 15 + r) in C.
    rewrite inject_Z_plus, inject_Z_mult in C.
    change (inject_Z 15) with 15%Q in C.
    assert (U1 : (u == 15)%Q) by lra.
    assert (E : (z == inject_Z ideg + (1 # 2))%Q)
      by (rewrite Z, U1, C, Ei; field).
    assert (F : Qfloor z = ideg) by (apply Qfloor_unique; rewrite E; lra).
    rewrite F. repeat split; try lia. lra.
  - destruct (V ltac:(lia)) as [V0 V1].
    set (Wz := 6 * 10 ^ (p - 1)) in *.
    assert (W0 : (0 < inject_Z Wz)%Q)
      by (change 0%Q with (inject_Z 0); rewrite <- Zlt_Qlt; lia).
    assert (Vq : (0 <= inject_Z v)%Q)
      by (change 0%Q with (inject_Z 0); rewrite <- Zle_Qle; lia).
    assert (Vw : (inject_Z v + 1 <= inject_Z Wz)%Q).
    { change 1%Q with (inject_Z 1). rewrite <- inject_Z_plus, <- Zle_Qle.
      lia. }
    assert (CW : (Spec.cell_width p == 1 / inject_Z Wz)%Q).
    { unfold Spec.cell_width.
      replace (p <? 0) with false by (symmetry; apply Z.ltb_ge; lia).
      replace (p =? 0) with false by (symmetry; apply Z.eqb_neq; lia).
      unfold Wz. rewrite <- sixty_tenths by lia. now rewrite inject_Z_mult. }
    assert (Cn : (c == (15 * inject_Z t + inject_Z r) * inject_Z Wz
                      + inject_Z v)%Q).
    { rewrite C. unfold Spec.cell_number.
      replace (p <? 0) with false by (symmetry; apply Z.ltb_ge; lia).
      replace (p =? 0) with false by (symmetry; apply Z.eqb_neq; lia).
      fold Wz. repeat (rewrite inject_Z_plus || rewrite inject_Z_mult).
      change (inject_Z 15) with 15%Q. ring. }
    rewrite CW in U.
    assert (U1 : (u == 15 * inject_Z Wz)%Q).
    { rewrite <- U. field. lra. }
    set (w := inject_Z Wz) in *.
    assert (IW : (0 < / w)%Q) by (now apply Qinv_lt_0_compat).
    assert (WW : (w * / w == 1)%Q) by (field; lra).
    set (d := ((inject_Z v + (1 # 2)) * / w)%Q).
    assert (E : (z == inject_Z ideg + d)%Q).
    { rewrite Z, U1, Cn, Ei. unfold d. field. lra. }
    assert (D : (0 < d < 1)%Q) by (unfold d; split; nra).
    assert (F : Qfloor z = ideg) by (apply Qfloor_unique; rewrite E; lra).
    rewrite F. repeat split; try lia; [lra|]. intros _.
    assert (Eq : (z - inject_Z ideg == d)%Q) by (rewrite E; ring).
    rewrite minutes_exact by (lia || (rewrite Eq; lra)). fold Wz w.
    destruct (Qeq_bool (z - inject_Z ideg) 1) eqn:One.
    + apply Qeq_bool_eq in One. rewrite Eq in One. lra.
    + apply Qfloor_unique; rewrite Eq; unfold d; nra.
Qed.

(** A longitude from 0 to under 180 is left as it is. *)
Lemma AngNormalize_id (z : Q) :
  (0 <= z < 180)%Q ->
  exists c, Georef.AngNormalize (Fin z) = Fin c /\ (c == z)%Q.
Proof.
  intros R. eexists. split; [reflexivity|]. cbv beta.
  assert (F : Qfloor ((z + 180) / 360) = 0).
  { apply Qfloor_unique.
    - apply Qle_shift_div_l; [reflexivity|]. change (inject_Z 0) with 0%Q. lra.
    - apply Qlt_shift_div_r; [reflexivity|].
      change (inject_Z 0 + 1)%Q with 1%Q. lra. }
  rewrite F. change (inject_Z 0) with 0%Q. ring.
Qed.

End Stable.

Section Stability.

Context `{Platform}.

Import Real.

(** Two strings that [Forward] lays out for the same tile, and for the same
    degrees and minutes where they show, are equal. *)
Lemma layout_unique (p il ia x y il' ia' x' y' : Z) (s s' : string) :
  -1 <= p ->
  Spec.layout p il ia x y s -> Spec.layout p il' ia' x' y' s' ->
  Z.quot il Georef.tile_ = Z.quot il' Georef.tile_ ->
  Z.quot ia Georef.tile_ = Z.quot ia' Georef.tile_ ->
  (0 <= p -> il = il' /\ ia = ia') ->
  (0 < p -> x = x' /\ y = y') ->
  s = s'.
Proof.
  intros P L L' Tl Ta D Mi.
  destruct L' as (Len' & G0' & G1' & G23' & GD').
  rewrite <- Tl in G0'. rewrite <- Ta in G1'.
  eapply (same_layout s s' p); [exact P|].
  intros s0 [-> | ->]; [exact L|].
  split; [exact Len'|]. split; [exact G0'|]. split; [exact G1'|]. split.
  - intros P0. destruct (D P0) as [-> ->]. now apply G23'.
  - intros P0. destruct (Mi P0) as [-> ->]. now apply GD'.
Qed.

(** X9.  The middle of a cell is encoded as the cell: for a latitude from
    0 to 90 degrees and a longitude that is not negative once normalised,
    decoding the string [Forward] returns with the center option and
    encoding the point obtained with the same precision request gives the
    same string again. *)
Theorem Forward_of_center_is_stable (a b c : Q) (prec : Z)
  (georef georef' : string) (out : Georef.outs) :
  (0 <= a <= 90)%Q ->
  Georef.AngNormalize (Fin b) = Fin c -> (0 <= c)%Q ->
  exists (s : string) (lat' lon' : Q),
    Georef.Forward (Fin a) (Fin b) prec georef = Returns s
    /\ Georef.Reverse s out true
       = Returns {| Georef.lat := Fin lat'; Georef.lon := Fin lon';
                    Georef.prec := Georef.clamp_prec prec |}
    /\ Georef.Forward (Fin lat') (Fin lon') prec georef' = Returns s.
Proof.
  intros Ha Eb Hc.
  destruct (Forward_then_parse a b c prec georef Ha Eb Hc)
    as (s & u & lo & la & E & Lay & I & Pa & U & Elo & Ela & Rlon & Rlat
        & Q1 & Q2).
  pose proof (clamp_prec_spec prec) as (Pr & P1 & _).
  set (p := Georef.clamp_prec prec) in *.
  set (ilon := Qfloor c) in *.
  set (ilat := Z.min (Qfloor a) Georef.maxlat_) in *.
  set (x := Spec.minutes p _) in Lay, Elo.
  set (y := Spec.minutes p _) in Lay, Ela.
  assert (Pc : p = -1 \/ p = 0 \/ 2 <= p <= 11) by lia.
  assert (Mx : 2 <= p -> 0 <= x < 6 * 10 ^ (p - 1))
    by (intros; now apply minutes_spec; [lia|]).
  assert (My : 2 <= p -> 0 <= y < 6 * 10 ^ (p - 1))
    by (intros; now apply minutes_spec; [lia|]).
  set (lat' := (15 * (2 * la + 1) / (u * 2))%Q).
  set (lon' := (15 * (2 * lo + 1) / (u * 2))%Q).
  exists s, lat', lon'. split; [exact E|].
  split; [now apply Reverse_center_of_parse|].
  destruct (axis_stable p ilat y u la lat' ltac:(lia) Pc My U Ela
              ltac:(reflexivity)) as (Ta & A0 & Da & Ma).
  destruct (axis_stable p ilon x u lo lon' ltac:(lia) Pc Mx U Elo
              ltac:(reflexivity)) as (To & O0 & _).
  assert (Ta' : 0 <= ilat / 15 < 6)
    by (split; [apply Z.div_pos | apply Z.div_lt_upper_bound]; lia).
  assert (To' : 0 <= ilon / 15 < 12)
    by (split; [apply Z.div_pos | apply Z.div_lt_upper_bound]; lia).
  assert (A90 : (lat' < 90)%Q).
  { pose proof (Qlt_floor lat') as L.
    assert (B : (inject_Z (Qfloor lat' + 1) <= inject_Z 90)%Q)
      by (rewrite <- Zle_Qle; lia).
    change (inject_Z 90) with 90%Q in B. lra. }
  assert (O180 : (lon' < 180)%Q).
  { pose proof (Qlt_floor lon') as L.
    assert (B : (inject_Z (Qfloor lon' + 1) <= inject_Z 180)%Q)
      by (rewrite <- Zle_Qle; lia).
    change (inject_Z 180) with 180%Q in B. lra. }
  assert (A : (Qabs lat' <= 90)%Q) by (apply Qabs_Qle_condition; lra).
  destruct (Forward_string lat' lon' prec georef' A) as (s' & E' & Lay').
  fold p in Lay'.
  destruct (AngNormalize_id lon' ltac:(split; [exact O0 | exact O180]))
    as (c' & Ec' & Cq).
  rewrite Ec' in Lay'.
  destruct (axis_stable p ilon x u lo c' ltac:(lia) Pc Mx U Elo
              ltac:(now rewrite Cq)) as (To2 & _ & Do & Mo).
  destruct (to_int_floor c' 0 179 ltac:(lia) ltac:(lia)) as [Ei' _].
  { rewrite Cq. exact O0. }
  { rewrite Cq. change (inject_Z 179 + 1)%Q with 180%Q. exact O180. }
  destruct (to_int_floor lat' 0 89 ltac:(lia) ltac:(lia)) as [Ea' Ra'].
  { exact A0. } { change (inject_Z 89 + 1)%Q with 90%Q. exact A90. }
  rewrite Ei', Ea' in Lay'. cbn [sub of_Z lift2] in Lay'.
  rewrite E'. f_equal. symmetry.
  unfold Georef.maxlat_ in Lay'. rewrite Z.min_l in Lay' by lia.
  apply (layout_unique p _ _ _ _ _ _ _ _ s s' ltac:(lia) Lay Lay').
  - unfold Georef.tile_. rewrite !Z.quot_div_nonneg by lia.
    apply Z.div_unique with (r := Qfloor c' - 15 * (ilon / 15)); lia.
  - unfold Georef.tile_. rewrite !Z.quot_div_nonneg by lia.
    apply Z.div_unique with (r := Qfloor lat' - 15 * (ilat / 15)); lia.
  - intros P0. rewrite Do, Da by exact P0. now split.
  - intros P0. rewrite Mo, Ma by lia. now split.
Qed.

End Stability.

(** ** Georef: NaN through the codec *)

Section NaNCodec.

Context `{Platform}.

Import Real.

(** X10.  A NaN coordinate survives the round trip: when [Forward] does not
    throw on the latitude and one of the coordinates is NaN, it returns a
    string that [Reverse] decodes to NaN in both coordinates, with [prec]
    left as it was. *)
Theorem NaN_round_trip (lat lon : real) (prec : Z) (georef : string)
  (out : Georef.outs) (centerp : bool) :
  gtb (abs lat) (of_Z 90) = false ->
  isnan lat || isnan lon = true ->
  exists s,
    Georef.Forward lat lon prec georef = Returns s
    /\ Georef.Reverse s out centerp
       = Returns {| Georef.lat := NaN; Georef.lon := NaN;
                    Georef.prec := Georef.prec out |}.
Proof.
  intros G N. exists "INVALID"%string. split.
  - unfold Georef.Forward, Georef.Forward_run. now rewrite G, N.
  - reflexivity.
Qed.

End NaNCodec.

(** ** Gnomonic: [Reverse] returns only what it evaluated *)

Section ReverseEvaluated.

Import Real.

Variable E : Gnomonic.Env.
Variable this : Gnomonic.Gnomonic.
Variables lat0 lon0 x y : real.

(** Either no pass among the first [n] trips, or one is the first to. *)
Lemma first_trip (n : nat) :
  (forall j, (j < n)%nat -> Newton.trips (H := E) this lat0 lon0 x y j = false)
  \/ exists k, (k < n)%nat
       /\ Newton.trips (H := E) this lat0 lon0 x y k = true
       /\ forall j, (j < k)%nat ->
                    Newton.trips (H := E) this lat0 lon0 x y j = false.
Proof.
  induction n as [|n [None|(k & K & T & B)]].
  - left. intros j Hj. lia.
  - destruct (Newton.trips (H := E) this lat0 lon0 x y n) eqn:T.
    + right. exists n. repeat split; [lia | exact T | exact None].
    + left. intros j Hj. destruct (Nat.eq_dec j n) as [->|]; [exact T|].
      apply None. lia.
  - right. exists k. repeat split; [lia | exact T | exact B].
Qed.

(** X11.  The locals [lat1], [lon1], [azi1] and [M] of [Reverse] are never
    read before the engine has set them: whatever they hold at first, the
    results and the evaluations made are the same. *)
Theorem Reverse_returns_only_evaluated (l l' : Gnomonic.position) :
  Gnomonic.Reverse_run (H := with_locals E l) this lat0 lon0 x y
  = Gnomonic.Reverse_run (H := with_locals E l') this lat0 lon0 x y.
Proof.
  rewrite (Reverse_run_loop (H := with_locals E l)).
  rewrite (Reverse_run_loop (H := with_locals E l')). cbv zeta.
  change (@Gnomonic.numit_ (with_locals E l)) with (@Gnomonic.numit_ E).
  change (@Gnomonic.numit_ (with_locals E l')) with (@Gnomonic.numit_ E).
  destruct (first_trip (@Gnomonic.numit_ E)) as [None|(k & K & T & B)].
  - match goal with
    | |- context [Gnomonic.iterate _ _ _ _ _ ?st] =>
        destruct (iterate_never (H := with_locals E l) this lat0 lon0 x y
                    (@Gnomonic.numit_ E) st eq_refl None) as (T0 & E0)
    end.
    rewrite T0, E0.
    match goal with
    | |- _ = (if negb (Gnomonic.trip (Gnomonic.iterate _ _ _ _ _ ?st) =? 0)
              then _ else _, _) =>
        destruct (iterate_never (H := with_locals E l') this lat0 lon0 x y
                    (@Gnomonic.numit_ E) st eq_refl None) as (T1 & E1)
    end.
    rewrite T1, E1. reflexivity.
  - match goal with
    | |- context [Gnomonic.iterate _ _ _ _ _ ?st] =>
        destruct (iterate_trips (H := with_locals E l) this lat0 lon0 x y
                    (@Gnomonic.numit_ E) st k eq_refl K T B)
          as (T0 & R0 & E0)
    end.
    rewrite (tripped _ T0), R0, E0.
    match goal with
    | |- _ = (if negb (Gnomonic.trip (Gnomonic.iterate _ _ _ _ _ ?st) =? 0)
              then _ else _, _) =>
        destruct (iterate_trips (H := with_locals E l') this lat0 lon0 x y
                    (@Gnomonic.numit_ E) st k eq_refl K T B)
          as (T1 & R1 & E1)
    end.
    rewrite (tripped _ T1), R1, E1. reflexivity.
Qed.


(** X12.  Whatever the engine does, the arc lengths at which [Reverse]
    evaluates the line are the first ones of the sequence that starts at
    [s0] and applies the correction of each pass, and the results are those
    of the last evaluation made, or NaN in all four when every one of the
    [numit_] passes has been used without the test on the correction
    passing. *)
Theorem Reverse_result_is_last_evaluation :
  let run := Gnomonic.Reverse_run (H := E) this lat0 lon0 x y in
  (fst run = Newton.all_NaN
   /\ snd run = Newton.arcs (H := E) this lat0 lon0 x y (@Gnomonic.numit_ E))
  \/ exists n, (n < @Gnomonic.numit_ E)%nat
       /\ fst run = Newton.at_arc (H := E) this lat0 lon0 x y
                      (Newton.arc (H := E) this lat0 lon0 x y n)
       /\ snd run = Newton.arcs (H := E) this lat0 lon0 x y (S n).
Proof.
  cbv zeta. rewrite (Reverse_run_loop (H := E)). cbv zeta.
  destruct (first_trip (@Gnomonic.numit_ E)) as [None|(k & K & T & B)].
  - left.
    match goal with
    | |- context [Gnomonic.iterate _ _ _ _ _ ?st] =>
        destruct (iterate_never (H := E) this lat0 lon0 x y
                    (@Gnomonic.numit_ E) st eq_refl None) as (T0 & E0)
    end.
    rewrite T0, E0. cbn [fst snd Z.eqb negb Gnomonic.evals Gnomonic.s].
    split; [reflexivity|]. apply app_nil_r.
  - right.
    match goal with
    | |- context [Gnomonic.iterate _ _ _ _ _ ?st] =>
        destruct (iterate_trips (H := E) this lat0 lon0 x y
                    (@Gnomonic.numit_ E) st k eq_refl K T B)
          as (T0 & R0 & E0)
    end.
    rewrite (tripped _ T0), R0, E0.
    cbn [fst snd Gnomonic.evals Gnomonic.s].
    exists (if (S k <? @Gnomonic.numit_ E)%nat then S k else k).
    split.
    + destruct (S k <? @Gnomonic.numit_ E)%nat eqn:L; [|exact K].
      now apply Nat.ltb_lt in L.
    + split; [reflexivity|]. apply app_nil_r.
Qed.

End ReverseEvaluated.

(** ** Gnomonic: [Forward] at and past the horizon *)

Section Horizon.

Context `{Gnomonic.Env}.

Import Real.


End Horizon.

(** ** The further properties at concrete inputs *)

(** At latitude 57.5 and longitude 10.5 with precision 3 every access is in
    bounds. *)
Lemma Forward_accesses_example :
  forallb Spec.in_bounds
    (Georef.Forward_trace (H := plain) (Fin (115 # 2)) (Fin (21 # 2)) 3)
  = true.
Proof.
  destruct (Forward_accesses (H := plain) (115 # 2) (21 # 2) 3) as [_ B].
  - vm_compute. discriminate.
  - apply B; vm_compute; discriminate.
Defined.

(** A letter among the digits of an eight-character string is refused. *)
Lemma Reverse_checks_trailing_from_six_example :
  exists msg,
    Georef.Reverse (H := plain) "NKLN2X38"
      {| Georef.lat := Fin 1; Georef.lon := Fin 2; Georef.prec := 7 |} true
    = Throws (Err msg)
        {| Georef.lat := Fin 1; Georef.lon := Fin 2; Georef.prec := 7 |}.
Proof.
  apply (Reverse_checks_trailing_from_six (H := plain)).
  - reflexivity.
  - vm_compute. discriminate.
  - left. exists 5%nat, "X"%char. repeat split. lia.
Defined.

(** "NKLN2438": eight characters, precision 2, and both halves of the
    digits start below 6. *)
Lemma Reverse_accepts_only_georefs_example :
  (Z.of_nat (String.length "NKLN2438") = 2 /\ 2 = -1
   \/ (Z.of_nat (String.length "NKLN2438") = 4
       \/ Z.of_nat (String.length "NKLN2438") = 5) /\ 2 = 0
   \/ 2 <= 2 /\ Z.of_nat (String.length "NKLN2438") = 4 + 2 * 2)
  /\ Georef.lookup Georef.digits_ (Str.at_ (H := plain) "NKLN2438" 4) < 6
  /\ Georef.lookup Georef.digits_ (Str.at_ (H := plain) "NKLN2438" (4 + 2))
     < 6.
Proof.
  destruct (Reverse_accepts_only_georefs (H := plain) "NKLN2438"
              {| Georef.lat := NaN; Georef.lon := NaN; Georef.prec := 0 |}
              {| Georef.lat := Fin (103755 # 1800);
                 Georef.lon := Fin (18735 # 1800); Georef.prec := 2 |} true
              eq_refl eq_refl) as (_ & _ & L & _ & D).
  split; [exact L|]. apply D. vm_compute. reflexivity.
Defined.



(** Latitude 57.6425 and longitude 370.405 with precision 3, and back. *)
Lemma Forward_of_center_is_stable_example :
  exists (s : string) (lat' lon' : Q),
    Georef.Forward (H := plain) (Fin (23057 # 400)) (Fin (74081 # 200)) 3 "old"
    = Returns s
    /\ Georef.Reverse (H := plain) s
         {| Georef.lat := NaN; Georef.lon := NaN; Georef.prec := 0 |} true
       = Returns {| Georef.lat := Fin lat'; Georef.lon := Fin lon';
                    Georef.prec := 3 |}
    /\ Georef.Forward (H := plain) (Fin lat') (Fin lon') 3 "other"
       = Returns s.
Proof.
  apply (Forward_of_center_is_stable (H := plain) (23057 # 400)
           (74081 # 200) (2081 # 200) 3 "old" "other").
  - split; lra.
  - reflexivity.
  - lra.
Defined.

(** A NaN latitude with longitude 1. *)
Lemma NaN_round_trip_example :
  exists s,
    Georef.Forward (H := plain) NaN (Fin 1) 3 "old" = Returns s
    /\ Georef.Reverse (H := plain) s
         {| Georef.lat := Fin 1; Georef.lon := Fin 2; Georef.prec := 7 |} false
       = Returns {| Georef.lat := NaN; Georef.lon := NaN; Georef.prec := 7 |}.
Proof.
  exact (NaN_round_trip (H := plain) NaN (Fin 1) 3 "old"
           {| Georef.lat := Fin 1; Georef.lon := Fin 2; Georef.prec := 7 |}
           false eq_refl eq_refl).
Defined.

